(** * build_coffee_kg: entity resolution and graph assembly

    A shallow embedding of [build_coffee_kg.py] and the properties of its
    identifier normalizer, structured-field parser, node/edge primitives and
    row-by-row graph assembler.

    Conventions of the embedding.
    - A Python [str] is a [string]: one [ascii] per code point, so the model
      covers the code points below 256 (Latin-1).  [str.lower], [str.strip]
      and the regular expression class [[^a-z0-9]] are written out for that
      range exactly as CPython defines them.
    - A Python [dict] whose iteration order is observed is an association
      list kept in insertion order; the attribute dictionaries of nodes and
      edges, which are only looked up, are [gmap]s.
    - A call that may raise returns a [result]; [try/except] is a match on it.
    - A cell of the table is [None], a string, an integer (an [int64] of
      pandas) or a float, NaN included; the floats are an abstract carrier
      ([PyFloat]), since the program never computes with them.
    - [pd.read_csv] is outside the model.  Of the HTML export the model
      has what is computed from the graph, the label and the colour of each
      node and the label of each edge; the tooltips and the file that pyvis
      writes are outside. *)

From Stdlib Require Import ZArith Ascii String DecimalString.
From stdpp Require Import base option list strings gmap fin_maps.

Local Open Scope Z_scope.

(** * Characters and strings *)

Module Str.

Definition code (c : ascii) : N := N_of_ascii c.

Definition in_range (lo hi : N) (c : ascii) : bool :=
  ((lo <=? code c) && (code c <=? hi))%N.

Definition is_digit : ascii → bool := in_range 48 57.
Definition is_az : ascii → bool := in_range 97 122.
Definition is_AZ : ascii → bool := in_range 65 90.

(** [str.isspace] on the code points below 256. *)
Definition isspace (c : ascii) : bool :=
  in_range 9 13 c || in_range 28 32 c || (code c =? 133)%N || (code c =? 160)%N.

(** The code points below 256 that [str.lower] changes: A-Z and the
    Latin-1 capitals U+00C0..U+00DE without the multiplication sign. *)
Definition has_lower (c : ascii) : bool :=
  is_AZ c || in_range 192 214 c || in_range 216 222 c.

Definition char_lower (c : ascii) : ascii :=
  if has_lower c then ascii_of_N (code c + 32) else c.

Fixpoint lower (s : string) : string :=
  match s with
  | EmptyString => EmptyString
  | String c s' => String (char_lower c) (lower s')
  end.

Fixpoint lstrip (p : ascii → bool) (s : string) : string :=
  match s with
  | EmptyString => EmptyString
  | String c s' => if p c then lstrip p s' else s
  end.

Fixpoint rstrip (p : ascii → bool) (s : string) : string :=
  match s with
  | EmptyString => EmptyString
  | String c s' =>
      match rstrip p s' with
      | EmptyString => if p c then EmptyString else String c EmptyString
      | r => String c r
      end
  end.

(** [s.strip()] and [s.strip(chars)]. *)
Definition strip_by (p : ascii → bool) (s : string) : string :=
  rstrip p (lstrip p s).
Definition strip : string → string := strip_by isspace.

Definition is_hyphen (c : ascii) : bool := (code c =? 45)%N.

Definition is_empty (s : string) : bool :=
  match s with EmptyString => true | _ => false end.

(** [s.split(sep)] for a one-character separator: never an empty list. *)
Fixpoint split (sep : ascii) (s : string) : list string :=
  match s with
  | EmptyString => [EmptyString]
  | String c s' =>
      if Ascii.eqb c sep then EmptyString :: split sep s'
      else match split sep s' with
           | h :: t => String c h :: t
           | [] => [String c EmptyString]
           end
  end.

(** [sep in s]. *)
Fixpoint contains (sep : ascii) (s : string) : bool :=
  match s with
  | EmptyString => false
  | String c s' => Ascii.eqb c sep || contains sep s'
  end.

(** The text before and after the first [sep], when there is one. *)
Fixpoint split_once (sep : ascii) (s : string) : option (string * string) :=
  match s with
  | EmptyString => None
  | String c s' =>
      if Ascii.eqb c sep then Some (EmptyString, s')
      else match split_once sep s' with
           | Some (a, b) => Some (String c a, b)
           | None => None
           end
  end.

(** [s.split(sep, 1)]: one or two pieces. *)
Definition split_max1 (sep : ascii) (s : string) : list string :=
  match split_once sep s with
  | Some (a, b) => [a; b]
  | None => [s]
  end.

End Str.

(** * Identifier normalizer *)

(** The class [[a-z0-9]] of the regular expression in [slugify]. *)
Definition slug_char (c : ascii) : bool := Str.is_az c || Str.is_digit c.
Global Arguments slug_char : simpl never.
Global Arguments Str.is_hyphen : simpl never.
Global Arguments Str.isspace : simpl never.
Global Arguments Str.char_lower : simpl never.

(** [re.sub(r"[^a-z0-9]+", "-", s)]: every maximal run of characters outside
    [[a-z0-9]] becomes one hyphen.  [in_run] records that the previous
    character already belonged to the run being replaced. *)
Fixpoint re_sub_runs (in_run : bool) (s : string) : string :=
  match s with
  | EmptyString => EmptyString
  | String c s' =>
      if slug_char c then String c (re_sub_runs false s')
      else if in_run then re_sub_runs true s'
      else String "-"%char (re_sub_runs true s')
  end.

(** [slugify(s)] for a [str] argument ([s or ""] is then [s] itself). *)
Definition slugify (s : string) : string :=
  let s := Str.lower (Str.strip s) in
  let s := re_sub_runs false s in
  let t := Str.strip_by Str.is_hyphen s in
  if Str.is_empty t then "unknown" else t.

(** The shape of a slug: characters of [[a-z0-9-]], no hyphen first or last,
    no two hyphens in a row, and not empty.  [prev] tells whether a hyphen
    (or the start of the string) comes just before. *)
Fixpoint slug_from (prev : bool) (s : string) : bool :=
  match s with
  | EmptyString => negb prev
  | String c s' =>
      if slug_char c then slug_from false s'
      else Str.is_hyphen c && negb prev && slug_from true s'
  end.

Definition is_slug (s : string) : bool := slug_from true s.

(** The shape of the output of [re_sub_runs]: as a slug, but hyphens may
    stand first and last. *)
Fixpoint hyphenated (prev : bool) (s : string) : bool :=
  match s with
  | EmptyString => true
  | String c s' =>
      if slug_char c then hyphenated false s'
      else Str.is_hyphen c && negb prev && hyphenated true s'
  end.

(** * Python values, exceptions and builtins *)

(** The two exception classes the program can meet.  The message of the
    schema error is the one the source builds; for an error raised by a
    builtin only the fixed part of CPython's message is kept. *)
Inductive exn : Type :=
| ValueError (msg : string)
| TypeError (msg : string).

Inductive result (A : Type) : Type :=
| Ok (a : A)
| Raise (e : exn).
Global Arguments Ok {A} a.
Global Arguments Raise {A} e.

Global Instance result_ret : MRet result := λ A a, Ok a.
Global Instance result_bind : MBind result := λ A B k r,
  match r with Ok a => k a | Raise e => Raise e end.
Global Instance result_fmap : FMap result := λ A B f r,
  match r with Ok a => Ok (f a) | Raise e => Raise e end.

Definition is_ok {A : Type} (r : result A) : bool :=
  match r with Ok _ => true | Raise _ => false end.

(** A [for] loop over [l] that threads the state [s] and stops at the first
    exception. *)
Fixpoint for_each {A S : Type} (body : S → A → result S) (l : list A) (s : S)
  : result S :=
  match l with
  | [] => Ok s
  | x :: l' => s' ← body s x; for_each body l' s'
  end.

(** Floating-point numbers are not computed with: the program only converts
    to them, prints them and tests them for NaN.  They are therefore an
    abstract carrier with the builtins that CPython and pandas supply. *)
Class PyFloat (F : Type) : Type := {
  f_zero : F;                        (* the literal [0.0] *)
  f_nan : F;                         (* the missing cell of pandas *)
  f_isnan : F → bool;
  f_of_int : Z → F;                  (* [float(n)] for an integer *)
  f_of_str : string → option F;      (* [float(s)]; [None] is ValueError *)
  f_repr : F → string                (* [str(x)] *)
}.

(** The scalars a cell, a field or an attribute can hold.  NaN, the missing
    cell of pandas, is the float [f_nan]. *)
Inductive value (F : Type) : Type :=
| VNone
| VStr (s : string)
| VInt (n : Z)
| VFloat (x : F).
Global Arguments VNone {F}.
Global Arguments VStr {F} s.
Global Arguments VInt {F} n.
Global Arguments VFloat {F} x.

(** Decimal digits with single underscores between them, as [int] and
    [float] read them.  [after_digit] tells whether a digit comes just
    before. *)
Fixpoint int_digits (acc : Z) (after_digit : bool) (s : string) : option Z :=
  match s with
  | EmptyString => if after_digit then Some acc else None
  | String c s' =>
      if Str.is_digit c
      then int_digits (10 * acc + (Z.of_N (Str.code c) - 48)) true s'
      else if Ascii.eqb c "_" && after_digit then int_digits acc false s'
      else None
  end.

(** The integer a base-10 literal denotes: blanks around it, a sign, then
    the digits. *)
Definition int_literal (s : string) : option Z :=
  match Str.strip s with
  | String "+" t => int_digits 0 false t
  | String "-" t => Z.opp <$> int_digits 0 false t
  | t => int_digits 0 false t
  end.

(** [int(s)] for a [str] over the code points below 256.  The limit that
    CPython 3.11 puts on the number of digits (a ValueError as well) is left
    out. *)
Definition py_int (s : string) : result Z :=
  match int_literal s with
  | Some n => Ok n
  | None => Raise (ValueError "invalid literal for int() with base 10")
  end.

(** * Ordered dictionaries *)

Definition dict (V : Type) : Type := list (string * V).

(** [d[k] = v]: an existing key keeps its place, a new key goes last. *)
Fixpoint dict_set {V : Type} (k : string) (v : V) (d : dict V) : dict V :=
  match d with
  | [] => [(k, v)]
  | (k', v') :: d' =>
      if String.eqb k' k then (k', v) :: d' else (k', v') :: dict_set k v d'
  end.

Fixpoint dict_get {V : Type} (k : string) (d : dict V) : option V :=
  match d with
  | [] => None
  | (k', v') :: d' => if String.eqb k' k then Some v' else dict_get k d'
  end.

(** * Structured-field parser *)

(** [[p.strip() for p in s.split(";") if p.strip()]] *)
Definition segments (s : string) : list string :=
  Str.strip <$>
    List.filter (λ p, negb (Str.is_empty (Str.strip p))) (Str.split ";" s).

(** One turn of the loop of [parse_note_intensities]. *)
Definition parse_segment (out : dict Z) (p : string) : result (dict Z) :=
  if negb (Str.contains ":" p) then Ok out
  else
    match Str.split_max1 ":" p with
    | [note; intensity] =>
        let note := Str.strip note in
        match py_int (Str.strip intensity) with
        | Ok intensity_i =>
            if negb (Str.is_empty note) then Ok (dict_set note intensity_i out)
            else Ok out
        | Raise (ValueError _) => Ok out
        | Raise e => Raise e
        end
    | _ => Raise (ValueError "not enough values to unpack")
    end.

Definition parse_note_intensities {F : Type} (s : value F) : result (dict Z) :=
  match s with
  | VStr s =>
      if Str.is_empty (Str.strip s) then Ok []
      else for_each parse_segment (segments s) []
  | _ => Ok []
  end.

(** What the specification says of one segment: the key and the intensity
    it contributes, or nothing when it has no [:], an empty key or a value
    that is not an integer. *)
Definition segment_entry (p : string) : option (string * Z) :=
  match Str.split_once ":" p with
  | None => None
  | Some (key, val) =>
      match py_int (Str.strip val) with
      | Ok n => if Str.is_empty (Str.strip key) then None else Some (Str.strip key, n)
      | Raise _ => None
      end
  end.

Definition dict_of_entries {V : Type} (l : list (string * V)) : dict V :=
  fold_left (λ d e, dict_set e.1 e.2 d) l [].

(** * Builtins on values *)

Section Builtins.

Context {F : Type} `{PyFloat F}.

(** [str(v)] *)
Definition py_str (v : value F) : string :=
  match v with
  | VNone => "None"
  | VStr s => s
  | VInt n => NilZero.string_of_int (Z.to_int n)
  | VFloat x => f_repr x
  end.

(** [float(v)] *)
Definition py_float (v : value F) : result F :=
  match v with
  | VFloat x => Ok x
  | VInt n => Ok (f_of_int n)
  | VStr s =>
      match f_of_str s with
      | Some x => Ok x
      | None => Raise (ValueError "could not convert string to float")
      end
  | VNone => Raise (TypeError "float() argument must be a string or a real number")
  end.

(** [pd.notna(v)] on a scalar. *)
Definition notna (v : value F) : bool :=
  match v with
  | VNone => false
  | VFloat x => negb (f_isnan x)
  | _ => true
  end.

(** [v == ""] *)
Definition is_empty_str (v : value F) : bool :=
  match v with
  | VStr s => Str.is_empty s
  | _ => false
  end.

(** [v is None or v == ""], which is also [v in (None, "")]. *)
Definition is_blank (v : value F) : bool :=
  match v with
  | VNone => true
  | v => is_empty_str v
  end.

End Builtins.

(** * The graph: [networkx.MultiDiGraph]

    Node attributes by node identifier, and edge attributes by
    (source, destination, key): at most one edge per triple. *)

Record MultiDiGraph (F : Type) : Type := {
  nodes : gmap string (gmap string (value F));
  edges : gmap (string * string * string) (gmap string (value F))
}.
Global Arguments nodes {F} _.
Global Arguments edges {F} _.

Definition empty_graph {F : Type} : MultiDiGraph F :=
  {| nodes := ∅; edges := ∅ |}.

(** The graph of a build that is known to succeed. *)
Definition graph_of {F : Type} (r : result (MultiDiGraph F)) : MultiDiGraph F :=
  match r with
  | Ok G => G
  | Raise _ => empty_graph
  end.

Section Graph.

Context {F : Type} `{PyFloat F}.

(** [d.update(attr)] with the keyword arguments in order. *)
Definition update (d : gmap string (value F)) (attr : dict (value F))
  : gmap string (value F) :=
  fold_left (λ m kv, <[kv.1 := kv.2]> m) attr d.

(** A keyword of [props] that is also a named parameter of the callee:
    Python refuses the call with TypeError. *)
Definition clashes (params : list string) (props : dict (value F)) : bool :=
  existsb (λ kv, existsb (String.eqb kv.1) params) props.

(** [G.add_node(n, **attr)] *)
Definition add_node (G : MultiDiGraph F) (n : string) (attr : dict (value F))
  : MultiDiGraph F :=
  {| nodes := <[n := update (default ∅ (nodes G !! n)) attr]> (nodes G);
     edges := edges G |}.

(** [G.add_edge(u, v, key=key, **attr)]: the end points are created with no
    attributes when absent, and the attributes of an edge that exists are
    updated, not replaced. *)
Definition nx_add_edge (G : MultiDiGraph F) (u v key : string)
    (attr : dict (value F)) : MultiDiGraph F :=
  let G := if nodes G !! u is Some _ then G else add_node G u [] in
  let G := if nodes G !! v is Some _ then G else add_node G v [] in
  {| nodes := nodes G;
     edges := <[(u, v, key) := update (default ∅ (edges G !! (u, v, key))) attr]>
                (edges G) |}.

(** One turn of the merge loop of [ensure_node] on the attributes [a] of the
    node. *)
Definition merge_prop (a : gmap string (value F)) (kv : string * value F)
  : gmap string (value F) :=
  let '(k, v) := kv in
  if negb (is_blank v) &&
     match a !! k with
     | None => true
     | Some old => is_blank old
     end
  then <[k := v]> a
  else a.

Definition ensure_node (G : MultiDiGraph F) (node_id label node_type : string)
    (props : dict (value F)) : result (MultiDiGraph F) :=
  if clashes ["G"; "node_id"; "label"; "node_type"] props
  then Raise (TypeError "got multiple values for argument")
  else
    match nodes G !! node_id with
    | None =>
        if clashes ["node_for_adding"; "label"; "type"] props
        then Raise (TypeError "got multiple values for keyword argument")
        else Ok (add_node G node_id
                   (("label", VStr label) :: ("type", VStr node_type) :: props))
    | Some a =>
        Ok {| nodes := <[node_id := fold_left merge_prop props a]> (nodes G);
              edges := edges G |}
    end.

Definition add_edge (G : MultiDiGraph F) (src rel dst : string)
    (props : dict (value F)) : result (MultiDiGraph F) :=
  if clashes ["G"; "src"; "rel"; "dst"] props
  then Raise (TypeError "got multiple values for argument")
  else if clashes ["u_for_edge"; "v_for_edge"; "key"; "type"] props
  then Raise (TypeError "got multiple values for keyword argument")
  else Ok (nx_add_edge G src dst rel (("type", VStr rel) :: props)).

End Graph.

(** * The input table

    [pd.read_csv] is outside the model: the build starts from the table it
    returns, the column names in order and one [Series] per row. *)

Record DataFrame (F : Type) : Type := {
  columns : list string;
  rows : list (gmap string (value F))
}.
Global Arguments columns {F} _.
Global Arguments rows {F} _.

(** [c in l] for a list or a set of strings. *)
Definition str_in (c : string) (l : list string) : bool :=
  existsb (String.eqb c) l.
Global Arguments str_in : simpl never.

Definition core_columns : list string :=
  [ "brew_id"; "barista"; "brew_date"; "roaster"; "coffee_name"; "roast_level";
    "roast_date"; "brew_method"; "brewer_brand"; "brewer_model"; "dose_g";
    "total_brew_time_sec"; "notes_intensities"; "sweetness_0_10";
    "acidity_0_10"; "bitterness_0_10"; "body_0_10"; "overall_0_10"; "grinder";
    "grind_setting"; "filter_material"; "notes_overall" ].

Definition required : list string :=
  [ "brew_id"; "barista"; "brew_date"; "roaster"; "coffee_name"; "roast_level";
    "brew_method"; "brewer_brand"; "brewer_model"; "dose_g";
    "total_brew_time_sec"; "notes_intensities"; "sweetness_0_10";
    "acidity_0_10"; "bitterness_0_10"; "body_0_10"; "overall_0_10" ].

(** [repr] of a list of column names, as the f-string of the schema error
    prints it.  The names printed are names of [required]: no quote and no
    backslash, so [repr] of each is the name between single quotes. *)
Definition repr_str (s : string) : string := "'" +:+ s +:+ "'".

Fixpoint join (sep : string) (l : list string) : string :=
  match l with
  | [] => ""
  | [s] => s
  | s :: l' => s +:+ sep +:+ join sep l'
  end.

Definition repr_list (l : list string) : string :=
  "[" +:+ join ", " (repr_str <$> l) +:+ "]".

(** The fields of one row after cleaning, under the names of the source. *)
Record brew (F : Type) : Type := {
  brew_id : string;
  barista : string;
  brew_date : string;
  dose_g : F;
  total_brew_time_sec : F;
  roaster : string;
  coffee_name : string;
  roast_date : string;
  roast_level : string;
  grinder : string;
  grind_setting : string;
  brew_method : string;
  brewer_brand : string;
  brewer_model : string;
  filter_material : string;
  notes_overall : string;
  sweetness_0_10 : F;
  acidity_0_10 : F;
  bitterness_0_10 : F;
  body_0_10 : F;
  overall_0_10 : F;
  note_map : dict Z
}.
Global Arguments brew_id {F} _.
Global Arguments barista {F} _.
Global Arguments brew_date {F} _.
Global Arguments dose_g {F} _.
Global Arguments total_brew_time_sec {F} _.
Global Arguments roaster {F} _.
Global Arguments coffee_name {F} _.
Global Arguments roast_date {F} _.
Global Arguments roast_level {F} _.
Global Arguments grinder {F} _.
Global Arguments grind_setting {F} _.
Global Arguments brew_method {F} _.
Global Arguments brewer_brand {F} _.
Global Arguments brewer_model {F} _.
Global Arguments filter_material {F} _.
Global Arguments notes_overall {F} _.
Global Arguments sweetness_0_10 {F} _.
Global Arguments acidity_0_10 {F} _.
Global Arguments bitterness_0_10 {F} _.
Global Arguments body_0_10 {F} _.
Global Arguments overall_0_10 {F} _.
Global Arguments note_map {F} _.

(** * Entity resolver and graph assembler *)

Section Assembler.

Context {F : Type} `{PyFloat F}.

(** [r.get(key, default)] on a row. *)
Definition get (r : gmap string (value F)) (key : string) (default_ : value F)
  : value F :=
  default default_ (r !! key).

(** [str(r.get(key, "")) if pd.notna(r.get(key, None)) else ""] *)
Definition get_optional (r : gmap string (value F)) (key : string) : string :=
  if notna (get r key VNone) then py_str (get r key (VStr "")) else "".

(** Data cleaning and preparation: the fields are read in the order of the
    source, and the first failing [float] ends the row. *)
Definition read_row (r : gmap string (value F)) : result (brew F) :=
  let brew_id := py_str (get r "brew_id" (VStr "unknown")) in
  let barista := py_str (get r "barista" (VStr "unknown")) in
  let brew_date := py_str (get r "brew_date" (VStr "unknown")) in
  dose_g ← py_float (get r "dose_g" (VFloat f_zero));
  total_brew_time_sec ← py_float (get r "total_brew_time_sec" (VFloat f_zero));
  let roaster := py_str (get r "roaster" (VStr "unknown")) in
  let coffee_name := py_str (get r "coffee_name" (VStr "unknown")) in
  let roast_date := get_optional r "roast_date" in
  let roast_level := py_str (get r "roast_level" (VStr "unknown")) in
  let grinder := py_str (get r "grinder" (VStr "unknown")) in
  let grind_setting := py_str (get r "grind_setting" (VStr "unknown")) in
  let brew_method := py_str (get r "brew_method" (VStr "unknown")) in
  let brewer_brand := py_str (get r "brewer_brand" (VStr "unknown")) in
  let brewer_model := py_str (get r "brewer_model" (VStr "unknown")) in
  let filter_material := get_optional r "filter_material" in
  let notes_overall := get_optional r "notes_overall" in
  sweetness_0_10 ← py_float (get r "sweetness_0_10" (VFloat f_zero));
  acidity_0_10 ← py_float (get r "acidity_0_10" (VFloat f_zero));
  bitterness_0_10 ← py_float (get r "bitterness_0_10" (VFloat f_zero));
  body_0_10 ← py_float (get r "body_0_10" (VFloat f_zero));
  overall_0_10 ← py_float (get r "overall_0_10" (VFloat f_zero));
  note_map ← parse_note_intensities
                (VStr (F:=F) (py_str (get r "notes_intensities" (VStr ""))));
  Ok {| brew_id := brew_id; barista := barista; brew_date := brew_date;
        dose_g := dose_g; total_brew_time_sec := total_brew_time_sec;
        roaster := roaster; coffee_name := coffee_name;
        roast_date := roast_date; roast_level := roast_level;
        grinder := grinder; grind_setting := grind_setting;
        brew_method := brew_method; brewer_brand := brewer_brand;
        brewer_model := brewer_model; filter_material := filter_material;
        notes_overall := notes_overall; sweetness_0_10 := sweetness_0_10;
        acidity_0_10 := acidity_0_10; bitterness_0_10 := bitterness_0_10;
        body_0_10 := body_0_10; overall_0_10 := overall_0_10;
        note_map := note_map |}.

(** Node identifiers. *)
Definition roaster_id (b : brew F) : string := "roaster:" +:+ slugify (roaster b).
Definition beanlot_id (b : brew F) : string :=
  "bean:" +:+ slugify (roaster b) +:+ ":" +:+ slugify (coffee_name b).
Definition roastbatch_id (b : brew F) : string :=
  "roast:" +:+ slugify (roaster b) +:+ ":" +:+ slugify (coffee_name b)
    +:+ ":" +:+ slugify (roast_level b).
Definition grinder_id (b : brew F) : string := "grinder:" +:+ slugify (grinder b).
Definition brewer_id (b : brew F) : string :=
  "brewer:" +:+ slugify (brewer_brand b) +:+ "-" +:+ slugify (brewer_model b).
Definition brew_session_id (b : brew F) : string := "brew:" +:+ slugify (brew_id b).
Definition eval_id (b : brew F) : string := "eval:" +:+ slugify (brew_id b).
Definition note_id (note : string) : string := "note:" +:+ slugify note.

(** One turn of the loop over [df.columns] that fills [method_params]. *)
Definition method_param (r : gmap string (value F)) (mp : dict (value F))
    (col_name : string) : dict (value F) :=
  if negb (str_in col_name core_columns) then
    let value := get r col_name VNone in
    if notna value && negb (is_empty_str value) then
      match py_float value with
      | Ok x => dict_set col_name (VFloat x) mp
      | Raise (ValueError _) | Raise (TypeError _) =>
          dict_set col_name (VStr (py_str value)) mp
      end
    else mp
  else mp.

Definition method_params (cols : list string) (r : gmap string (value F))
    (brew_method : string) : dict (value F) :=
  fold_left (method_param r) cols [("brew_method", VStr brew_method)].

(** The body of the loop over the rows. *)
Definition process_row (cols : list string) (G : MultiDiGraph F)
    (r : gmap string (value F)) : result (MultiDiGraph F) :=
  b ← read_row r;
  (* Graph building: nodes *)
  G ← ensure_node G (roaster_id b) (roaster b) "Roaster" [];
  G ← ensure_node G (beanlot_id b) (coffee_name b) "BeanLot" [];
  G ← ensure_node G (roastbatch_id b)
        (coffee_name b +:+ " (" +:+ roast_level b +:+ ")") "RoastBatch"
        [("roast_level", VStr (roast_level b))];
  G ← ensure_node G (grinder_id b) (grinder b) "Grinder" [];
  G ← ensure_node G (brewer_id b)
        (Str.strip (brewer_brand b +:+ " " +:+ brewer_model b)) "Brewer"
        [("brand", VStr (brewer_brand b)); ("model", VStr (brewer_model b));
         ("filter_material", VStr (filter_material b))];
  G ← ensure_node G (brew_session_id b) (brew_id b) "BrewSession"
        [("dose_g", VFloat (dose_g b));
         ("total_brew_time_sec", VFloat (total_brew_time_sec b));
         ("notes_overall", VStr (notes_overall b));
         ("barista", VStr (barista b)); ("brew_date", VStr (brew_date b))];
  G ← ensure_node G (eval_id b) ("Eval " +:+ brew_id b) "SensoryEvaluation"
        [("sweetness_0_10", VFloat (sweetness_0_10 b));
         ("acidity_0_10", VFloat (acidity_0_10 b));
         ("bitterness_0_10", VFloat (bitterness_0_10 b));
         ("body_0_10", VFloat (body_0_10 b));
         ("overall_0_10", VFloat (overall_0_10 b))];
  G ← for_each (λ G ni, ensure_node G (note_id ni.1) ni.1 "FlavorNote" [])
        (note_map b) G;
  (* Graph building: edges *)
  let method_params := method_params cols r (brew_method b) in
  G ← add_edge G (roaster_id b) "PRODUCES" (beanlot_id b) [];
  G ← add_edge G (beanlot_id b) "ROASTED_AS" (roastbatch_id b)
        [("roast_date", VStr (roast_date b))];
  G ← add_edge G (brew_session_id b) "USES_GRINDER" (grinder_id b)
        [("grind_setting", VStr (grind_setting b))];
  G ← add_edge G (brew_session_id b) "BREWED_WITH" (brewer_id b) method_params;
  G ← add_edge G (brew_session_id b) "USES_ROAST" (roastbatch_id b) [];
  G ← add_edge G (brew_session_id b) "EVALUATED_AS" (eval_id b) [];
  for_each (λ G ni, add_edge G (eval_id b) "HAS_NOTE" (note_id ni.1)
                      [("intensity", VInt ni.2)])
    (note_map b) G.

(** The required columns that the table lacks, in the order of [required]. *)
Definition missing_columns (cols : list string) : list string :=
  List.filter (λ c, negb (str_in c cols)) required.

Definition build_graph_from_brews (df : DataFrame F) : result (MultiDiGraph F) :=
  let missing := missing_columns (columns df) in
  match missing with
  | _ :: _ =>
      Raise (ValueError ("Missing required columns: " +:+ repr_list missing))
  | [] => for_each (process_row (columns df)) (rows df) empty_graph
  end.

End Assembler.

(** * A carrier to run the program on

    The theorems below hold for every [PyFloat].  To evaluate the program on
    concrete tables, floats are taken as exact decimals [m * 10^e] with NaN
    and the infinities; [float] reads the literals of CPython's grammar and
    [str] prints in positional notation (what CPython prints for a float of
    at most fifteen significant digits between 1e-4 and 1e16).  Rounding to
    binary64 is left out: nothing in the program computes with the numbers. *)

Module Dec.

Inductive dec : Type :=
| NaN
| Inf (neg : bool)
| Fin (m e : Z).

(** The digits of a group, underscores apart. *)
Fixpoint count_digits (s : string) : Z :=
  match s with
  | EmptyString => 0
  | String c s' => (if Str.is_digit c then 1 else 0) + count_digits s'
  end.

(** [digitpart] or nothing; the value and the number of digits. *)
Definition digit_group (s : string) : option (Z * Z) :=
  match s with
  | EmptyString => Some (0, 0)
  | _ => (λ n, (n, count_digits s)) <$> int_digits 0 false s
  end.

(** [[digitpart] "." digitpart | digitpart ["."]] as [m * 10^e]. *)
Definition mantissa (s : string) : option (Z * Z) :=
  match Str.split_once "." s with
  | None => (λ n, (n, 0)) <$> int_digits 0 false s
  | Some (ip, fp) =>
      match digit_group ip, digit_group fp with
      | Some (i, ni), Some (f, nf) =>
          if (ni + nf =? 0) then None else Some (i * 10 ^ nf + f, - nf)
      | _, _ => None
      end
  end.

Definition signed (s : string) : bool * string :=
  match s with
  | String "+" t => (false, t)
  | String "-" t => (true, t)
  | t => (false, t)
  end.

Definition exponent (s : string) : option Z :=
  let '(neg, t) := signed s in
  (λ n, if neg then - n else n) <$> int_digits 0 false t.

Definition split_exponent (s : string) : string * option string :=
  match Str.split_once "e" s, Str.split_once "E" s with
  | Some (a, b), Some (a', b') =>
      if (String.length a <? String.length a')%nat then (a, Some b) else (a', Some b')
  | Some (a, b), None => (a, Some b)
  | None, Some (a, b) => (a, Some b)
  | None, None => (s, None)
  end.

Definition of_str (s : string) : option dec :=
  let '(neg, t) := signed (Str.strip s) in
  let l := Str.lower t in
  if String.eqb l "nan" then Some NaN
  else if String.eqb l "inf" || String.eqb l "infinity" then Some (Inf neg)
  else
    let '(ms, es) := split_exponent t in
    match mantissa ms, es with
    | Some (m, e), None => Some (Fin (if neg then - m else m) e)
    | Some (m, e), Some x =>
        (λ k, Fin (if neg then - m else m) (e + k)) <$> exponent x
    | None, _ => None
    end.

Definition digits (n : Z) : string := NilZero.string_of_uint (N.to_uint (Z.to_N n)).

Fixpoint zeros (n : nat) : string :=
  match n with
  | O => ""
  | S n' => String "0" (zeros n')
  end.

Definition repr (x : dec) : string :=
  match x with
  | NaN => "nan"
  | Inf false => "inf"
  | Inf true => "-inf"
  | Fin m e =>
      let sign := if m <? 0 then "-" else "" in
      let a := Z.abs m in
      if 0 <=? e then sign +:+ digits (a * 10 ^ e) +:+ ".0"
      else
        let k := - e in
        let whole := a / 10 ^ k in
        let frac := digits (a mod 10 ^ k) in
        let frac := zeros (Z.to_nat k - String.length frac) +:+ frac in
        let frac := Str.rstrip (λ c, Ascii.eqb c "0") frac in
        sign +:+ digits whole +:+ "." +:+ (if Str.is_empty frac then "0" else frac)
  end.

Global Instance dec_float : PyFloat dec := {|
  f_zero := Fin 0 0;
  f_nan := NaN;
  f_isnan := λ x, match x with NaN => true | _ => false end;
  f_of_int := λ n, Fin n 0;
  f_of_str := of_str;
  f_repr := repr
|}.

End Dec.

(** * Notions used in the statements *)

(** [t] occurs in [s]. *)
Definition occurs (t s : string) : Prop := ∃ pre post, s = pre +:+ t +:+ post.

(** The seven fields read with [float]. *)
Definition numeric_fields : list string :=
  [ "dose_g"; "total_brew_time_sec"; "sweetness_0_10"; "acidity_0_10";
    "bitterness_0_10"; "body_0_10"; "overall_0_10" ].

(** * Node identity *)

(** The entity kinds that a row names, the fields that form the natural key
    of each, and the identifier the assembler gives it. *)
Inductive entity : Type :=
| Roaster | BeanLot | RoastBatch | Grinder | Brewer | BrewSession
| SensoryEvaluation.

Definition natural_key {F : Type} (e : entity) (b : brew F) : list string :=
  match e with
  | Roaster => [roaster b]
  | BeanLot => [roaster b; coffee_name b]
  | RoastBatch => [roaster b; coffee_name b; roast_level b]
  | Grinder => [grinder b]
  | Brewer => [brewer_brand b; brewer_model b]
  | BrewSession => [brew_id b]
  | SensoryEvaluation => [brew_id b]
  end.

Definition node_id {F : Type} (e : entity) (b : brew F) : string :=
  match e with
  | Roaster => roaster_id b
  | BeanLot => beanlot_id b
  | RoastBatch => roastbatch_id b
  | Grinder => grinder_id b
  | Brewer => brewer_id b
  | BrewSession => brew_session_id b
  | SensoryEvaluation => eval_id b
  end.

(** The cleaned fields of a row that is known to be read without error. *)
Definition cleaned {F : Type} `{PyFloat F} (r : gmap string (value F)) : brew F :=
  match read_row r with
  | Ok b => b
  | Raise _ =>
      {| brew_id := ""; barista := ""; brew_date := ""; dose_g := f_zero;
         total_brew_time_sec := f_zero; roaster := ""; coffee_name := "";
         roast_date := ""; roast_level := ""; grinder := "";
         grind_setting := ""; brew_method := ""; brewer_brand := "";
         brewer_model := ""; filter_material := ""; notes_overall := "";
         sweetness_0_10 := f_zero; acidity_0_10 := f_zero;
         bitterness_0_10 := f_zero; body_0_10 := f_zero;
         overall_0_10 := f_zero; note_map := [] |}
  end.

(** * Invariants of the node store *)

(** What a later step may not undo on the attributes of a node: a value
    that is neither [None] nor the empty string, the label and the type. *)
Definition attrs_kept {F : Type} (a a' : gmap string (value F)) : Prop :=
  (∀ k v, a !! k = Some v → is_blank v = false → a' !! k = Some v) ∧
  a' !! "label" = a !! "label" ∧
  a' !! "type" = a !! "type".

Definition nodes_kept {F : Type} (G G' : MultiDiGraph F) : Prop :=
  ∀ n a, nodes G !! n = Some a →
    ∃ a', nodes G' !! n = Some a' ∧ attrs_kept a a'.

(** * The edge store, key by key *)

(** The attribute [k] of the node [n] and of the edge [e], when it is set. *)
Definition node_attr {F : Type} (G : MultiDiGraph F) (n k : string)
  : option (value F) :=
  nodes G !! n ≫= (.!! k).

Definition edge_attr {F : Type} (G : MultiDiGraph F)
    (e : string * string * string) (k : string) : option (value F) :=
  edges G !! e ≫= (.!! k).

(** What a key holds once the pairs of [attr] are written in order over
    [cur]: the last value written to it, or [cur] when none is. *)
Fixpoint last_value {V : Type} (attr : dict V) (k : string) (cur : option V)
  : option V :=
  match attr with
  | [] => cur
  | (k', v) :: attr' =>
      last_value attr' k (if String.eqb k' k then Some v else cur)
  end.

(** One call [add_edge(G, src, rel, dst, **props)]. *)
Definition emission (F : Type) : Type :=
  string * string * string * dict (value F).

(** What the key [k] of the edge [e] holds once the calls [es] are made in
    order: each call to the triple of [e] writes [type] and its own keys,
    and writes nothing else. *)
Fixpoint replay {F : Type} (es : list (emission F))
    (e : string * string * string) (k : string) (cur : option (value F))
  : option (value F) :=
  match es with
  | [] => cur
  | (src, rel, dst, props) :: es' =>
      replay es' e k
        (if decide (e = (src, dst, rel))
         then last_value (("type", VStr rel) :: props) k cur
         else cur)
  end.

Section EdgeCalls.

Context {F : Type} `{PyFloat F}.

(** The calls of [add_edge] that [process_row] makes for a row, in order. *)
Definition row_edges (cols : list string) (r : gmap string (value F))
    (b : brew F) : list (emission F) :=
  [ (roaster_id b, "PRODUCES", beanlot_id b, []);
    (beanlot_id b, "ROASTED_AS", roastbatch_id b,
      [("roast_date", VStr (roast_date b))]);
    (brew_session_id b, "USES_GRINDER", grinder_id b,
      [("grind_setting", VStr (grind_setting b))]);
    (brew_session_id b, "BREWED_WITH", brewer_id b,
      method_params cols r (brew_method b));
    (brew_session_id b, "USES_ROAST", roastbatch_id b, []);
    (brew_session_id b, "EVALUATED_AS", eval_id b, []) ] ++
  ((λ ni : string * Z,
      (eval_id b, "HAS_NOTE", note_id ni.1, [("intensity", VInt ni.2)]))
     <$> note_map b).

(** The value the assembler stores for a dynamic column: the number when
    [float] accepts the cell, else [str] of the cell as it is. *)
Definition coerce (v : value F) : value F :=
  match py_float v with
  | Ok x => VFloat x
  | Raise _ => VStr (py_str v)
  end.

(** A cell that the loop over the dynamic columns keeps. *)
Definition present (v : value F) : bool := notna v && negb (is_empty_str v).

End EdgeCalls.

(** * A small table to run the build on *)

Module Example.

Import Dec.

Definition cols : list string :=
  required ++ ["grinder"; "water_temp_c"; "bloom_sec"; "remark"].

(** A first brew, with a water temperature.  The cells are those of a table
    read from text: a column of numbers with a gap holds floats and NaN, a
    column with a word in it holds strings. *)
Definition row1 : gmap string (value dec) :=
  list_to_map
    [ ("brew_id", VStr "B001"); ("barista", VStr "Ann");
      ("brew_date", VStr "2024-05-01"); ("roaster", VStr "Blue Bottle");
      ("coffee_name", VStr "Hayes Valley"); ("roast_level", VStr "Dark");
      ("brew_method", VStr "espresso"); ("brewer_brand", VStr "La Marzocco");
      ("brewer_model", VStr "Linea"); ("dose_g", VFloat (Fin 18 0));
      ("total_brew_time_sec", VInt 28);
      ("notes_intensities", VStr "chocolate:4;fruit:x;:5;floral:2");
      ("sweetness_0_10", VInt 6); ("acidity_0_10", VInt 4);
      ("bitterness_0_10", VInt 5); ("body_0_10", VInt 7);
      ("overall_0_10", VInt 8); ("grinder", VStr "Niche Zero");
      ("water_temp_c", VFloat (Fin 93 0)); ("bloom_sec", VStr "30");
      ("remark", VFloat NaN) ].

(** The same session, roaster and brewer written with another case and
    punctuation, another barista, no water temperature and a remark with
    blanks around it. *)
Definition row2 : gmap string (value dec) :=
  list_to_map
    [ ("brew_id", VStr "b001"); ("barista", VStr "Bob");
      ("brew_date", VStr "2024-05-02"); ("roaster", VStr "blue-bottle!!");
      ("coffee_name", VStr "hayes valley"); ("roast_level", VStr "dark");
      ("brew_method", VStr "ristretto"); ("brewer_brand", VStr "la marzocco");
      ("brewer_model", VStr "LINEA"); ("dose_g", VFloat (Fin 19 0));
      ("total_brew_time_sec", VInt 30);
      ("notes_intensities", VStr "Chocolate:2");
      ("sweetness_0_10", VInt 1); ("acidity_0_10", VInt 2);
      ("bitterness_0_10", VInt 3); ("body_0_10", VInt 4);
      ("overall_0_10", VInt 5); ("grinder", VStr "niche zero");
      ("water_temp_c", VFloat NaN); ("bloom_sec", VStr "long");
      ("remark", VStr " x ") ].

(** A row whose dose is not a number. *)
Definition row_bad_dose : gmap string (value dec) :=
  <["dose_g" := VStr "abc"]> row1.

(** A table that lacks most of the required columns. *)
Definition df_short : DataFrame dec :=
  {| columns := ["brew_id"; "dose_g"];
     rows := [list_to_map [("brew_id", VStr "B001"); ("dose_g", VInt 18)]] |}.

(** A table whose dose column holds "18" and "abc": both cells are strings. *)
Definition df_bad_dose : DataFrame dec :=
  {| columns := cols;
     rows := [<["dose_g" := VStr "18"]> row1; row_bad_dose] |}.

(** The graph after the first row, and after both rows. *)
Definition G1 : MultiDiGraph dec :=
  graph_of (build_graph_from_brews {| columns := cols; rows := [row1] |}).
Definition G12 : MultiDiGraph dec :=
  graph_of (build_graph_from_brews {| columns := cols; rows := [row1] ++ [row2] |}).

Definition brewed_with : string * string * string :=
  ("brew:b001", "brewer:la-marzocco-linea", "BREWED_WITH").


End Example.

(** * Further notions *)

(** Every character of [s] satisfies [p]. *)
Fixpoint all_chars (p : ascii → bool) (s : string) : bool :=
  match s with
  | EmptyString => true
  | String c s' => p c && all_chars p s'
  end.

(** Two brews on brewers whose brand and model differ but join to the same
    text. *)
Definition row_acme_pro : gmap string (value Dec.dec) :=
  <["brewer_brand" := VStr "acme-pro"]>
    (<["brewer_model" := VStr "x1"]> Example.row1).

Definition row_acme : gmap string (value Dec.dec) :=
  <["brewer_brand" := VStr "acme"]>
    (<["brewer_model" := VStr "pro-x1"]> Example.row1).

(** An attribute that is missing, [None] or the empty string. *)
Definition unset {F : Type} (o : option (value F)) : bool :=
  from_option is_blank true o.

(** The graph of the first example row after a later call that names the
    filter of its brewer. *)
Definition G1_paper : MultiDiGraph Dec.dec :=
  graph_of (ensure_node Example.G1 "brewer:la-marzocco-linea"
              "La Marzocco Linea" "Brewer" [("filter_material", VStr "paper")]).

(** * The calls of a row

    [process_row] is a sequence of calls of [ensure_node] followed by a
    sequence of calls of [add_edge] ([row_edges]).  The invariants of the
    built graph are proved call by call over these two lists. *)

(** One call [ensure_node(G, node_id, label, node_type, **props)]. *)
Definition node_call (F : Type) : Type :=
  string * string * string * dict (value F).

(** The calls of [ensure_node] that [process_row] makes for a row, in order. *)
Definition row_nodes {F : Type} (b : brew F) : list (node_call F) :=
  [ (roaster_id b, roaster b, "Roaster", []);
    (beanlot_id b, coffee_name b, "BeanLot", []);
    (roastbatch_id b, coffee_name b +:+ " (" +:+ roast_level b +:+ ")",
      "RoastBatch", [("roast_level", VStr (roast_level b))]);
    (grinder_id b, grinder b, "Grinder", []);
    (brewer_id b, Str.strip (brewer_brand b +:+ " " +:+ brewer_model b),
      "Brewer",
      [("brand", VStr (brewer_brand b)); ("model", VStr (brewer_model b));
       ("filter_material", VStr (filter_material b))]);
    (brew_session_id b, brew_id b, "BrewSession",
      [("dose_g", VFloat (dose_g b));
       ("total_brew_time_sec", VFloat (total_brew_time_sec b));
       ("notes_overall", VStr (notes_overall b));
       ("barista", VStr (barista b)); ("brew_date", VStr (brew_date b))]);
    (eval_id b, "Eval " +:+ brew_id b, "SensoryEvaluation",
      [("sweetness_0_10", VFloat (sweetness_0_10 b));
       ("acidity_0_10", VFloat (acidity_0_10 b));
       ("bitterness_0_10", VFloat (bitterness_0_10 b));
       ("body_0_10", VFloat (body_0_10 b));
       ("overall_0_10", VFloat (overall_0_10 b))]) ] ++
  ((λ ni : string * Z, (note_id ni.1, ni.1, "FlavorNote", [])) <$> note_map b).

Definition ensure_node_call {F : Type} `{PyFloat F} (G : MultiDiGraph F)
    (c : node_call F) : result (MultiDiGraph F) :=
  ensure_node G c.1.1.1 c.1.1.2 c.1.2 c.2.

Definition add_edge_call {F : Type} `{PyFloat F} (G : MultiDiGraph F)
    (c : emission F) : result (MultiDiGraph F) :=
  add_edge G c.1.1.1 c.1.1.2 c.1.2 c.2.

(** The node identifiers and the edge triples of a row. *)
Definition row_node_ids {F : Type} (b : brew F) : list string :=
  (λ c : node_call F, c.1.1.1) <$> row_nodes b.

Definition triple {F : Type} (c : emission F) : string * string * string :=
  (c.1.1.1, c.1.2, c.1.1.2).

(** The node types and the relationship types of the assembler. *)
Definition node_types : list string :=
  [ "Roaster"; "BeanLot"; "RoastBatch"; "Grinder"; "Brewer"; "BrewSession";
    "SensoryEvaluation"; "FlavorNote" ].

Definition edge_types : list string :=
  [ "PRODUCES"; "ROASTED_AS"; "USES_GRINDER"; "BREWED_WITH"; "USES_ROAST";
    "EVALUATED_AS"; "HAS_NOTE" ].

(** What every graph of the assembler satisfies: a node has a label and one
    of the node types; an edge joins two nodes of the graph and its [type]
    attribute is its key, one of the relationship types. *)
Definition node_ok {F : Type} (a : gmap string (value F)) : Prop :=
  ∃ l t, a !! "label" = Some (VStr l) ∧ a !! "type" = Some (VStr t) ∧
         t ∈ node_types.

Definition well_formed {F : Type} (G : MultiDiGraph F) : Prop :=
  (∀ n a, nodes G !! n = Some a → node_ok a) ∧
  (∀ u v k a, edges G !! (u, v, k) = Some a →
     is_Some (nodes G !! u) ∧ is_Some (nodes G !! v) ∧
     a !! "type" = Some (VStr k) ∧ k ∈ edge_types).

(** The parameter names that a keyword of [**props] cannot repeat in the call
    [add_edge(G, src, rel, dst, **props)] and in the call
    [G.add_edge(src, dst, key=rel, type=rel, **props)] it makes. *)
Definition reserved : list string :=
  [ "G"; "src"; "rel"; "dst"; "u_for_edge"; "v_for_edge"; "key"; "type" ].

Module MoreExamples.

Import Dec.

(** The table of both rows, and the same table with the rows exchanged. *)
Definition df12 : DataFrame dec :=
  {| columns := Example.cols; rows := [Example.row1] ++ [Example.row2] |}.
Definition df21 : DataFrame dec :=
  {| columns := Example.cols; rows := [Example.row2; Example.row1] |}.
Definition G21 : MultiDiGraph dec := graph_of (build_graph_from_brews df21).

(** A table with a column named [type]. *)
Definition df_type_column : DataFrame dec :=
  {| columns := Example.cols ++ ["type"];
     rows := [<["type" := VStr "V60"]> Example.row1] |}.

(** A row whose notes cell names one flavour twice, in two spellings. *)
Definition row_two_fruits : gmap string (value dec) :=
  <["notes_intensities" := VStr "Fruit:3;fruit:5"]> Example.row1.
Definition G_two_fruits : MultiDiGraph dec :=
  graph_of (build_graph_from_brews
              {| columns := Example.cols; rows := [] ++ [row_two_fruits] |}).

End MoreExamples.

(** * The export

    [export_pyvis_html] hands pyvis a label and a colour for every node and
    a label for every edge.  The tooltips list the attributes in insertion
    order, which the graph model does not keep; they, the layout and the
    file that pyvis writes are outside the model. *)

Definition type_to_color : dict string :=
  [ ("Roaster", "#b22222"); ("BeanLot", "#2e8b57"); ("RoastBatch", "#8b4513");
    ("Grinder", "#4682b4"); ("GrindSetting", "#4169e1"); ("Brewer", "#6a5acd");
    ("BrewSession", "#111111"); ("SensoryEvaluation", "gold");
    ("FlavorNote", "#ff8c00") ].

Section PyvisExport.

Context {F : Type}.

(** [attrs.get(key, default)] *)
Definition attrs_get (attrs : gmap string (value F)) (key : string)
    (default_ : value F) : value F :=
  default default_ (attrs !! key).

(** [type_to_color.get(ntype, "#cccccc")]: a value that is not a string is
    the key of no entry. *)
Definition color_of (ntype : value F) : string :=
  match ntype with
  | VStr t => default "#cccccc" (dict_get t type_to_color)
  | _ => "#cccccc"
  end.

(** The label and the colour given to the node [nid]. *)
Definition node_label (nid : string) (attrs : gmap string (value F)) : value F :=
  attrs_get attrs "label" (VStr nid).

Definition node_color (attrs : gmap string (value F)) : string :=
  color_of (attrs_get attrs "type" (VStr "Thing")).

(** The label given to the edge of key [k]. *)
Definition edge_label (k : string) (attrs : gmap string (value F)) : value F :=
  attrs_get attrs "type" (VStr k).

End PyvisExport.

(** * The shape of nodes and edges

    The node type that goes with each identifier template, and the keywords
    that each call of [ensure_node] and of [add_edge] in the loop body
    passes, with the kind of scalar each one holds. *)

Inductive kind : Type := KNone | KStr | KInt | KFloat.

Definition kind_of {F : Type} (v : value F) : kind :=
  match v with
  | VNone => KNone
  | VStr _ => KStr
  | VInt _ => KInt
  | VFloat _ => KFloat
  end.

Definition kinds {F : Type} (props : dict (value F)) : dict kind :=
  (λ kv, (kv.1, kind_of kv.2)) <$> props.

(** The text before the first colon of each identifier template, with the
    node type of the call of [ensure_node] that uses the template. *)
Definition id_prefixes : dict string :=
  [ ("roaster", "Roaster"); ("bean", "BeanLot"); ("roast", "RoastBatch");
    ("grinder", "Grinder"); ("brewer", "Brewer"); ("brew", "BrewSession");
    ("eval", "SensoryEvaluation"); ("note", "FlavorNote") ].

Definition id_type (n : string) : option string :=
  match Str.split_once ":" n with
  | Some (p, _) => dict_get p id_prefixes
  | None => None
  end.

(** The properties passed with each node type. *)
Definition node_schema : dict (dict kind) :=
  [ ("Roaster", []); ("BeanLot", []);
    ("RoastBatch", [("roast_level", KStr)]);
    ("Grinder", []);
    ("Brewer", [("brand", KStr); ("model", KStr); ("filter_material", KStr)]);
    ("BrewSession",
      [("dose_g", KFloat); ("total_brew_time_sec", KFloat);
       ("notes_overall", KStr); ("barista", KStr); ("brew_date", KStr)]);
    ("SensoryEvaluation",
      [("sweetness_0_10", KFloat); ("acidity_0_10", KFloat);
       ("bitterness_0_10", KFloat); ("body_0_10", KFloat);
       ("overall_0_10", KFloat)]);
    ("FlavorNote", []) ].

(** The properties passed with each relationship type but BREWED_WITH, whose
    properties depend on the table. *)
Definition edge_schema : dict (dict kind) :=
  [ ("PRODUCES", []); ("ROASTED_AS", [("roast_date", KStr)]);
    ("USES_GRINDER", [("grind_setting", KStr)]); ("USES_ROAST", []);
    ("EVALUATED_AS", []); ("HAS_NOTE", [("intensity", KInt)]) ].

(** The node types that each relationship type joins, source first. *)
Definition edge_ends : dict (string * string) :=
  [ ("PRODUCES", ("Roaster", "BeanLot"));
    ("ROASTED_AS", ("BeanLot", "RoastBatch"));
    ("USES_GRINDER", ("BrewSession", "Grinder"));
    ("BREWED_WITH", ("BrewSession", "Brewer"));
    ("USES_ROAST", ("BrewSession", "RoastBatch"));
    ("EVALUATED_AS", ("BrewSession", "SensoryEvaluation"));
    ("HAS_NOTE", ("SensoryEvaluation", "FlavorNote")) ].

(** A node whose type is the one of its identifier and whose attributes,
    label and type apart, are those of its type. *)
Definition node_schema_ok {F : Type} (n : string) (a : gmap string (value F))
  : Prop :=
  ∃ t ks, id_type n = Some t ∧ dict_get t node_schema = Some ks ∧
          a !! "type" = Some (VStr t) ∧
          ∀ k, k ≠ "label" → k ≠ "type" → kind_of <$> (a !! k) = dict_get k ks.

Definition nodes_schema_ok {F : Type} (G : MultiDiGraph F) : Prop :=
  ∀ n a, nodes G !! n = Some a → node_schema_ok n a.

(** A call of [ensure_node] that follows the schema. *)
Definition call_schema_ok {F : Type} (c : node_call F) : Prop :=
  id_type c.1.1.1 = Some c.1.2 ∧
  dict_get c.1.2 node_schema = Some (kinds c.2) ∧
  NoDup c.2.*1 ∧ clashes ["type"] c.2 = false.

(** An edge whose attributes, the type apart, are those of its relationship
    type; on BREWED_WITH they are the brew method and dynamic columns of the
    table [cols], numbers or strings. *)
Definition edge_schema_ok {F : Type} (cols : list string) (rel : string)
    (a : gmap string (value F)) : Prop :=
  (∀ ks, dict_get rel edge_schema = Some ks →
         ∀ k, k ≠ "type" → kind_of <$> (a !! k) = dict_get k ks) ∧
  (rel = "BREWED_WITH" →
   (∃ m, a !! "brew_method" = Some (VStr m)) ∧
   ∀ k x, a !! k = Some x →
          k = "type" ∨ (k = "brew_method" ∧ kind_of x = KStr) ∨
          (k ∈ cols ∧ str_in k core_columns = false ∧
           (kind_of x = KFloat ∨ kind_of x = KStr))).

Definition edges_schema_ok {F : Type} (cols : list string)
    (G : MultiDiGraph F) : Prop :=
  ∀ u v rel a, edges G !! (u, v, rel) = Some a → edge_schema_ok cols rel a.

(** A call of [add_edge] that follows the schema. *)
Definition edge_call_ok {F : Type} (cols : list string) (c : emission F)
  : Prop :=
  NoDup c.2.*1 ∧
  (∀ ks, dict_get c.1.1.2 edge_schema = Some ks → kinds c.2 = ks) ∧
  (c.1.1.2 = "BREWED_WITH" →
   (∃ m, dict_get "brew_method" c.2 = Some (VStr m)) ∧
   ∀ k x, (k, x) ∈ c.2 →
          (k = "brew_method" ∧ kind_of x = KStr) ∨
          (k ∈ cols ∧ str_in k core_columns = false ∧
           (kind_of x = KFloat ∨ kind_of x = KStr))).

(** * The identifier normalizer is idempotent *)

(** A fact about one character is checked on the 256 characters. *)
Ltac by_ascii_cases c :=
  destruct c as [[] [] [] [] [] [] [] []]; vm_compute; congruence.

Section SlugifyFacts.

Lemma slug_char_lower c : slug_char c = true → Str.char_lower c = c.
Proof. by_ascii_cases c. Qed.

Lemma hyphen_lower c : Str.is_hyphen c = true → Str.char_lower c = c.
Proof. by_ascii_cases c. Qed.

Lemma slug_char_not_space c : slug_char c = true → Str.isspace c = false.
Proof. by_ascii_cases c. Qed.

Lemma slug_char_not_hyphen c : slug_char c = true → Str.is_hyphen c = false.
Proof. by_ascii_cases c. Qed.

Lemma is_hyphen_eq c : Str.is_hyphen c = true → c = "-"%char.
Proof. by_ascii_cases c. Qed.

Lemma slug_from_weaken s : slug_from true s = true → slug_from false s = true.
Proof.
  destruct s as [|c s]; simpl; [discriminate|].
  destruct (slug_char c); [done|]. rewrite andb_false_r. discriminate.
Qed.

(** A slug is a fixed point of each step of [slugify]. *)

Lemma slug_lower s b : slug_from b s = true → Str.lower s = s.
Proof.
  revert b. induction s as [|c s IH]; intros b; simpl; [done|].
  destruct (slug_char c) eqn:Hc.
  - intros H. rewrite (slug_char_lower c Hc), (IH _ H). done.
  - intros [[Hh _]%andb_prop H]%andb_prop.
    rewrite (hyphen_lower c Hh), (IH _ H). done.
Qed.

Lemma slug_lstrip p s :
  (∀ c, slug_char c = true → p c = false) →
  slug_from true s = true → Str.lstrip p s = s.
Proof.
  intros Hp. destruct s as [|c s]; simpl; [done|].
  destruct (slug_char c) eqn:Hc.
  - by rewrite (Hp c Hc).
  - rewrite andb_false_r. discriminate.
Qed.

Lemma slug_rstrip p s b :
  (∀ c, slug_char c = true → p c = false) →
  slug_from b s = true → Str.rstrip p s = s.
Proof.
  intros Hp. revert b. induction s as [|c s IH]; intros b; simpl; [done|].
  destruct (slug_char c) eqn:Hc.
  - intros H. rewrite (IH _ H), (Hp c Hc). by destruct s.
  - intros [_ H]%andb_prop. rewrite (IH _ H).
    destruct s; [discriminate|done].
Qed.

Lemma slug_re_sub s b : slug_from b s = true → re_sub_runs b s = s.
Proof.
  revert b. induction s as [|c s IH]; intros b; simpl; [done|].
  destruct (slug_char c) eqn:Hc.
  - intros H. by rewrite (IH _ H).
  - intros [[Hh Hb]%andb_prop H]%andb_prop.
    destruct b; [discriminate|].
    by rewrite (IH _ H), (is_hyphen_eq c Hh).
Qed.

Lemma slugify_slug s : is_slug s = true → slugify s = s.
Proof.
  unfold is_slug, slugify, Str.strip, Str.strip_by. intros H.
  rewrite (slug_lstrip _ s slug_char_not_space H).
  rewrite (slug_rstrip _ s _ slug_char_not_space H).
  rewrite (slug_lower _ _ H).
  rewrite (slug_re_sub _ _ (slug_from_weaken _ H)).
  rewrite (slug_lstrip _ s slug_char_not_hyphen H).
  rewrite (slug_rstrip _ s _ slug_char_not_hyphen H).
  destruct s; [discriminate|done].
Qed.

(** Every output of [slugify] is a slug. *)

Lemma re_sub_hyphenated s b : hyphenated b (re_sub_runs b s) = true.
Proof.
  revert b. induction s as [|c s IH]; intros b; simpl; [done|].
  destruct (slug_char c) eqn:Hc; simpl.
  - by rewrite Hc.
  - destruct b; [done|]. simpl. apply IH.
Qed.

Lemma lstrip_hyphenated s b :
  hyphenated b s = true → hyphenated true (Str.lstrip Str.is_hyphen s) = true.
Proof.
  revert b. induction s as [|c s IH]; intros b; simpl; [done|].
  destruct (slug_char c) eqn:Hc.
  - intros H. rewrite (slug_char_not_hyphen c Hc). simpl. by rewrite Hc.
  - intros [[Hh _]%andb_prop H]%andb_prop. rewrite Hh. eauto.
Qed.

Lemma rstrip_hyphenated s b :
  hyphenated b s = true →
  Str.rstrip Str.is_hyphen s = EmptyString ∨
  slug_from b (Str.rstrip Str.is_hyphen s) = true.
Proof.
  revert b. induction s as [|c s IH]; intros b; simpl; [by left|].
  destruct (slug_char c) eqn:Hc.
  - intros H. right. rewrite (slug_char_not_hyphen c Hc).
    destruct (IH _ H) as [-> | Hr]; [simpl; by rewrite Hc|].
    destruct (Str.rstrip Str.is_hyphen s); simpl; by rewrite Hc.
  - intros [[Hh Hb]%andb_prop H]%andb_prop.
    destruct (IH _ H) as [-> | Hr]; [left; by rewrite Hh|].
    right. destruct (Str.rstrip Str.is_hyphen s) eqn:Hrs; [discriminate|].
    simpl slug_from at 1. rewrite Hc, Hh, Hb. done.
Qed.

Lemma slugify_is_slug s : is_slug (slugify s) = true.
Proof.
  unfold slugify, Str.strip_by.
  set (u := re_sub_runs false _).
  pose proof (lstrip_hyphenated u false (re_sub_hyphenated _ _)) as H.
  destruct (rstrip_hyphenated _ _ H) as [-> | Hr]; [done|].
  destruct (Str.rstrip _ _) eqn:Hrs; [done|]. exact Hr.
Qed.

End SlugifyFacts.

(** C9. The identifier normalizer is idempotent: normalizing the result of
    [slugify] gives the same token again, for every string. *)
Theorem slugify_idempotent (s : string) : slugify (slugify s) = slugify s.
Proof. apply slugify_slug, slugify_is_slug. Qed.

Example slugify_blank : slugify "   " = "unknown".
Proof. reflexivity. Qed.

Example slugify_case_punct : slugify "  Blue Bottle!! " = "blue-bottle".
Proof. reflexivity. Qed.

(** * The structured-field parser *)

Section ParserFacts.

Lemma contains_split_once sep s :
  Str.contains sep s = negb (bool_decide (Str.split_once sep s = None)).
Proof.
  induction s as [|c s IH]; simpl; [done|].
  destruct (Ascii.eqb c sep); simpl; [done|].
  rewrite IH. destruct (Str.split_once sep s) as [[a b]|]; done.
Qed.

Lemma py_int_raises s e : py_int s = Raise e → ∃ m, e = ValueError m.
Proof. unfold py_int. destruct (int_literal s); naive_solver. Qed.

Lemma parse_segment_entry out p :
  parse_segment out p =
  Ok (match segment_entry p with
      | Some (k, n) => dict_set k n out
      | None => out
      end).
Proof.
  unfold parse_segment, segment_entry, Str.split_max1.
  rewrite contains_split_once.
  destruct (Str.split_once ":" p) as [[a b]|]; simpl; [|done].
  destruct (py_int (Str.strip b)) as [n|e] eqn:Hn.
  - by destruct (Str.is_empty (Str.strip a)).
  - by destruct (py_int_raises _ _ Hn) as [m ->].
Qed.

Lemma for_each_parse_segment ps out :
  for_each parse_segment ps out =
  Ok (fold_left (λ d e, dict_set e.1 e.2 d) (omap segment_entry ps) out).
Proof.
  revert out. induction ps as [|p ps IH]; intros out; simpl; [done|].
  rewrite parse_segment_entry. simpl. rewrite IH.
  by destruct (segment_entry p) as [[k n]|].
Qed.

End ParserFacts.

(** C7. The structured-field parser never raises: it returns a mapping for
    every input value.  On a string it keeps exactly the well-formed segments
    (a [:], a key that is not empty once trimmed, an integer value), later
    segments still being parsed after a malformed one; the sample input gives
    chocolate 4 and floral 2; a blank string and every value that is not a
    string give the empty mapping. *)
Theorem parse_note_intensities_total :
  (∀ F (v : value F), ∃ d, parse_note_intensities v = Ok d) ∧
  (∀ F s, parse_note_intensities (F:=F) (VStr s) =
          Ok (if Str.is_empty (Str.strip s) then []
              else dict_of_entries (omap segment_entry (segments s)))) ∧
  (∀ F, parse_note_intensities (F:=F) (VStr "chocolate:4;fruit:x;:5;floral:2") =
        Ok [("chocolate", 4); ("floral", 2)]) ∧
  (∀ F, parse_note_intensities (F:=F) (VStr "  ") = Ok []) ∧
  (∀ F, parse_note_intensities (F:=F) VNone = Ok []) ∧
  (∀ F n, parse_note_intensities (F:=F) (VInt n) = Ok []) ∧
  (∀ F x, parse_note_intensities (F:=F) (VFloat x) = Ok []).
Proof.
  assert (Hstr : ∀ F s, parse_note_intensities (F:=F) (VStr s) =
            Ok (if Str.is_empty (Str.strip s) then []
                else dict_of_entries (omap segment_entry (segments s)))).
  { intros F s. unfold parse_note_intensities, dict_of_entries.
    destruct (Str.is_empty (Str.strip s)); [done|].
    apply for_each_parse_segment. }
  repeat split; try done.
  intros F [|s|n|x]; [by eexists| |by eexists..].
  rewrite Hstr. by eexists.
Qed.

(** * The schema check *)

Section SchemaFacts.

Context {F : Type} `{PyFloat F}.

Lemma string_app_cons c s t : String c s +:+ t = String c (s +:+ t).
Proof. reflexivity. Qed.

Lemma string_app_assoc (s t u : string) : (s +:+ t) +:+ u = s +:+ t +:+ u.
Proof. induction s as [|c s IH]; [done|]. by rewrite !string_app_cons, IH. Qed.

Lemma string_app_nil_r (s : string) : s +:+ "" = s.
Proof. induction s as [|c s IH]; [done|]. by rewrite string_app_cons, IH. Qed.

Lemma str_in_elem_of c l : str_in c l = true ↔ c ∈ l.
Proof.
  unfold str_in. rewrite existsb_exists. split.
  - intros (x & Hx & ->%String.eqb_eq). by apply list_elem_of_In.
  - intros Hc. exists c. split; [by apply list_elem_of_In|apply String.eqb_refl].
Qed.

Lemma missing_columns_spec cols c :
  c ∈ missing_columns cols ↔ c ∈ required ∧ c ∉ cols.
Proof.
  unfold missing_columns. rewrite list_elem_of_In, filter_In, <- list_elem_of_In.
  rewrite negb_true_iff, <- not_true_iff_false, str_in_elem_of. done.
Qed.

Lemma occurs_join (t : string) (l : list string) :
  t ∈ l → occurs t (join ", " l).
Proof.
  induction l as [|s l IH]; [by intros ?%elem_of_nil|].
  intros [->|Hin]%elem_of_cons.
  - destruct l as [|s' l].
    + exists "", "". simpl. by rewrite string_app_nil_r.
    + exists "", (", " +:+ join ", " (s' :: l)). done.
  - destruct (IH Hin) as (pre & post & Heq). destruct l as [|s' l].
    { by apply elem_of_nil in Hin. }
    exists (s +:+ ", " +:+ pre), post.
    change (join ", " (s :: s' :: l)) with (s +:+ ", " +:+ join ", " (s' :: l)).
    by rewrite Heq, !string_app_assoc.
Qed.

Lemma occurs_repr_list (c : string) (l : list string) :
  c ∈ l → occurs (repr_str c) ("Missing required columns: " +:+ repr_list l).
Proof.
  intros Hc.
  destruct (occurs_join (repr_str c) (repr_str <$> l)) as (pre & post & Heq).
  { by apply list_elem_of_fmap_2. }
  exists ("Missing required columns: [" +:+ pre), (post +:+ "]").
  unfold repr_list. rewrite Heq, !string_app_assoc. done.
Qed.

End SchemaFacts.

(** C5. When a required column is absent from the table, the build fails
    with one ValueError whose message lists the missing required columns:
    exactly the names of [required] that are not columns of the table, each
    of them occurring in the message.  The error does not depend on the rows
    (it is raised before any row is read), and no graph is returned. *)
Theorem schema_error_lists_missing {F : Type} `{PyFloat F} (df : DataFrame F)
    (c : string) :
  c ∈ required → c ∉ columns df →
  let missing := missing_columns (columns df) in
  let msg := "Missing required columns: " +:+ repr_list missing in
  build_graph_from_brews df = Raise (ValueError msg) ∧
  (∀ c', c' ∈ missing ↔ c' ∈ required ∧ c' ∉ columns df) ∧
  (∀ c', c' ∈ required → c' ∉ columns df → occurs (repr_str c') msg) ∧
  (∀ rws, build_graph_from_brews {| columns := columns df; rows := rws |} =
          Raise (ValueError msg)).
Proof.
  intros Hreq Habs missing msg.
  assert (Hc : c ∈ missing) by by apply missing_columns_spec.
  assert (Hb : ∀ rws, build_graph_from_brews {| columns := columns df; rows := rws |} =
                      Raise (ValueError msg)).
  { intros rws. unfold build_graph_from_brews. simpl. fold missing.
    destruct missing; [by apply elem_of_nil in Hc|done]. }
  split_and!; [|apply missing_columns_spec| |exact Hb].
  - destruct df as [cols rws]. apply Hb.
  - intros c' ??. apply occurs_repr_list. by apply missing_columns_spec.
Qed.

(** C5 witness: a table with the columns brew_id and dose_g only. *)
Lemma schema_error_lists_missing_witness :
  build_graph_from_brews Example.df_short =
  Raise (ValueError
    "Missing required columns: ['barista', 'brew_date', 'roaster', 'coffee_name', 'roast_level', 'brew_method', 'brewer_brand', 'brewer_model', 'total_brew_time_sec', 'notes_intensities', 'sweetness_0_10', 'acidity_0_10', 'bitterness_0_10', 'body_0_10', 'overall_0_10']").
Proof.
  apply (schema_error_lists_missing Example.df_short "barista").
  - apply list_elem_of_In. vm_compute. tauto.
  - intros Hin%list_elem_of_In. vm_compute in Hin. intuition discriminate.
Defined.

(** * Cleaning a row *)

Section RowFacts.

Context {F : Type} `{PyFloat F}.

Lemma for_each_raises {A S : Type} (body : S → A → result S) l x s :
  x ∈ l → (∀ s', ∃ e, body s' x = Raise e) → ∃ e, for_each body l s = Raise e.
Proof.
  revert s. induction l as [|y l IH]; intros s; [by intros ?%elem_of_nil|].
  intros [->|Hin]%elem_of_cons Hx; simpl.
  - destruct (Hx s) as [e ->]. by exists e.
  - destruct (body s y) as [s'|e]; simpl; [by apply IH|by exists e].
Qed.

Lemma for_each_app {A S : Type} (body : S → A → result S) l1 l2 s :
  for_each body (l1 ++ l2) s = (s' ← for_each body l1 s; for_each body l2 s').
Proof.
  revert s. induction l1 as [|x l1 IH]; intros s; simpl; [done|].
  destruct (body s x); simpl; [apply IH|done].
Qed.

Lemma get_present r key (d v : value F) : r !! key = Some v → get r key d = v.
Proof. unfold get. by intros ->. Qed.


(** A numeric field that [float] refuses ends the cleaning of the row,
    whatever the other fields hold. *)
Lemma read_row_raises r key v e :
  key ∈ numeric_fields → r !! key = Some v → py_float v = Raise e →
  ∃ e', read_row r = Raise e'.
Proof.
  intros Hkey Hr He. unfold read_row, numeric_fields in *.
  repeat (apply elem_of_cons in Hkey as [->|Hkey]);
    [..|by apply elem_of_nil in Hkey];
    rewrite (get_present r _ _ v Hr), He;
    repeat (match goal with
            | |- context [mbind _ (py_float ?a)] =>
                destruct (py_float a); simpl; eauto
            end).
Qed.

Lemma process_row_raises cols G r key v e :
  key ∈ numeric_fields → r !! key = Some v → py_float v = Raise e →
  ∃ e', process_row cols G r = Raise e'.
Proof.
  intros Hkey Hr He. destruct (read_row_raises r key v e) as [e' He']; [done..|].
  exists e'. unfold process_row. by rewrite He'.
Qed.

End RowFacts.

(** C6. When some row holds, in one of the seven numeric fields (dose, brew
    time, the five sensory scores), a value that is present and that [float]
    refuses, the build raises: the whole batch is aborted and the caller gets
    an exception, not a graph.  The value is not replaced by a default. *)
Theorem coercion_error_aborts_build {F : Type} `{PyFloat F} (df : DataFrame F)
    (r : gmap string (value F)) (key : string) (v : value F) (e : exn) :
  r ∈ rows df → key ∈ numeric_fields → r !! key = Some v →
  py_float v = Raise e →
  ∃ e', build_graph_from_brews df = Raise e'.
Proof.
  intros Hr Hkey Hv He. unfold build_graph_from_brews.
  destruct (missing_columns (columns df)); [|by eexists].
  apply (for_each_raises _ _ r); [done|].
  intros G. by apply (process_row_raises _ _ _ key v e).
Qed.

(** C6 witness: the second row of the table has the dose "abc". *)
Lemma coercion_error_aborts_build_witness :
  ∃ e, build_graph_from_brews Example.df_bad_dose = Raise e.
Proof.
  apply (coercion_error_aborts_build Example.df_bad_dose Example.row_bad_dose
           "dose_g" (VStr "abc")
           (ValueError "could not convert string to float")).
  - apply list_elem_of_In. right. left. reflexivity.
  - apply list_elem_of_In. left. reflexivity.
  - vm_compute. reflexivity.
  - vm_compute. reflexivity.
Defined.




(** * Node identity is a function of the slugs *)

Section IdentityFacts.

Lemma isspace_char_lower c : Str.isspace (Str.char_lower c) = Str.isspace c.
Proof. by_ascii_cases c. Qed.

Lemma char_lower_idem c : Str.char_lower (Str.char_lower c) = Str.char_lower c.
Proof. by_ascii_cases c. Qed.

Lemma lower_idem s : Str.lower (Str.lower s) = Str.lower s.
Proof. induction s as [|c s IH]; simpl; [done|]. by rewrite char_lower_idem, IH. Qed.

Lemma lower_lstrip s :
  Str.lstrip Str.isspace (Str.lower s) = Str.lower (Str.lstrip Str.isspace s).
Proof.
  induction s as [|c s IH]; simpl; [done|].
  rewrite isspace_char_lower. by destruct (Str.isspace c).
Qed.

Lemma lower_rstrip s :
  Str.rstrip Str.isspace (Str.lower s) = Str.lower (Str.rstrip Str.isspace s).
Proof.
  induction s as [|c s IH]; simpl; [done|].
  rewrite IH, isspace_char_lower.
  destruct (Str.rstrip Str.isspace s); simpl; [|done].
  by destruct (Str.isspace c).
Qed.

(** The normalizer does not see the case of letters. *)
Lemma slugify_lower s : slugify (Str.lower s) = slugify s.
Proof.
  unfold slugify, Str.strip, Str.strip_by.
  by rewrite lower_lstrip, lower_rstrip, lower_idem.
Qed.

Lemma slugify_same_lower s1 s2 :
  Str.lower s1 = Str.lower s2 → slugify s1 = slugify s2.
Proof. intros Hl. by rewrite <- (slugify_lower s1), Hl, slugify_lower. Qed.

(** The identifier of an entity is computed from the slugs of its key. *)
Lemma node_id_of_slugs {F : Type} (e : entity) (b1 b2 : brew F) :
  slugify <$> natural_key e b1 = slugify <$> natural_key e b2 →
  node_id e b1 = node_id e b2.
Proof.
  destruct e; simpl; intros Hk; simplify_eq;
    unfold roaster_id, beanlot_id, roastbatch_id, grinder_id, brewer_id,
      brew_session_id, eval_id; congruence.
Qed.

End IdentityFacts.

(** * First write wins on nodes *)

Lemma bind_Ok_inv {A B : Type} (r : result A) (k : A → result B) (y : B) :
  (x ← r; k x) = Ok y → ∃ x, r = Ok x ∧ k x = Ok y.
Proof. destruct r as [x|e]; simpl; [by exists x|discriminate]. Qed.

(** A sequence of calls that ends well: each call ended well. *)
Ltac inv_binds H := repeat (apply bind_Ok_inv in H as (? & ? & H)).

Section NodeFacts.

Context {F : Type} `{PyFloat F}.

Lemma attrs_kept_refl (a : gmap string (value F)) : attrs_kept a a.
Proof. by repeat split. Qed.

Lemma attrs_kept_trans (a1 a2 a3 : gmap string (value F)) :
  attrs_kept a1 a2 → attrs_kept a2 a3 → attrs_kept a1 a3.
Proof.
  intros (Hv & Hl & Ht) (Hv' & Hl' & Ht'). split_and!; [|congruence..].
  intros k v Hk Hb. apply Hv'; [by apply Hv|done].
Qed.

Lemma nodes_kept_refl (G : MultiDiGraph F) : nodes_kept G G.
Proof. intros n a Hn. exists a. split; [done|apply attrs_kept_refl]. Qed.

Lemma nodes_kept_trans (G1 G2 G3 : MultiDiGraph F) :
  nodes_kept G1 G2 → nodes_kept G2 G3 → nodes_kept G1 G3.
Proof.
  intros H12 H23 n a Hn.
  destruct (H12 n a Hn) as (a2 & Hn2 & Hk2).
  destruct (H23 n a2 Hn2) as (a3 & Hn3 & Hk3).
  exists a3. split; [done|]. by eapply attrs_kept_trans.
Qed.

Lemma clashes_false params (props : dict (value F)) :
  clashes params props = false ↔ ∀ k v p, (k, v) ∈ props → p ∈ params → k ≠ p.
Proof.
  unfold clashes. split.
  - intros Hc k v p Hkv Hp ->.
    apply not_true_iff_false in Hc. apply Hc, existsb_exists.
    exists (p, v). split; [by apply list_elem_of_In|]. simpl.
    apply existsb_exists. exists p. split; [by apply list_elem_of_In|].
    apply String.eqb_refl.
  - intros Hne. apply not_true_iff_false.
    intros ([k v] & Hkv%list_elem_of_In & (p & Hp%list_elem_of_In & Heq)%existsb_exists)%existsb_exists.
    simpl in Heq. apply String.eqb_eq in Heq. by eapply Hne.
Qed.

Lemma merge_prop_kept (a : gmap string (value F)) kv k (v : value F) :
  a !! k = Some v → is_blank v = false → merge_prop a kv !! k = Some v.
Proof.
  destruct kv as [k' v']. unfold merge_prop. intros Hk Hb.
  destruct (negb _ && _) eqn:Hc; [|done].
  destruct (decide (k' = k)) as [->|Hne]; [|by rewrite lookup_insert_ne].
  rewrite Hk, Hb, andb_false_r in Hc. discriminate.
Qed.

Lemma merge_prop_other (a : gmap string (value F)) kv k : kv.1 ≠ k → merge_prop a kv !! k = a !! k.
Proof.
  destruct kv as [k' v']. unfold merge_prop. simpl. intros Hne.
  destruct (negb _ && _); [by rewrite lookup_insert_ne|done].
Qed.

Lemma fold_merge_kept props (a : gmap string (value F)) k (v : value F) :
  a !! k = Some v → is_blank v = false →
  fold_left merge_prop props a !! k = Some v.
Proof.
  revert a. induction props as [|kv props IH]; intros a Hk Hb; simpl; [done|].
  apply IH; [|done]. by apply merge_prop_kept.
Qed.

Lemma fold_merge_other (props : dict (value F)) (a : gmap string (value F)) k :
  (∀ k' v, (k', v) ∈ props → k' ≠ k) →
  fold_left merge_prop props a !! k = a !! k.
Proof.
  revert a. induction props as [|[k' v'] props IH]; intros a Hne; simpl; [done|].
  rewrite IH.
  - apply (merge_prop_other a (k', v') k). simpl.
    apply (Hne k' v'), elem_of_cons. by left.
  - intros k'' v'' Hin. apply (Hne k'' v''), elem_of_cons. by right.
Qed.

(** [ensure_node] called without a [type] keyword keeps every node. *)
Lemma ensure_node_kept (G : MultiDiGraph F) node_id label node_type props G' :
  clashes ["type"] props = false →
  ensure_node G node_id label node_type props = Ok G' →
  nodes_kept G G'.
Proof.
  intros Hty. unfold ensure_node.
  destruct (clashes ["G"; "node_id"; "label"; "node_type"] props) eqn:Hc;
    [discriminate|].
  destruct (nodes G !! node_id) as [a0|] eqn:Hid.
  - intros [= <-] n a Hn. simpl.
    destruct (decide (node_id = n)) as [->|Hne].
    + rewrite lookup_insert_eq. eexists. split; [done|].
      assert (a = a0) as -> by congruence.
      split_and!.
      * intros k v. apply fold_merge_kept.
      * apply fold_merge_other. intros k v Hin.
        apply (proj1 (clashes_false _ _) Hc k v "label" Hin). set_solver.
      * apply fold_merge_other. intros k v Hin.
        apply (proj1 (clashes_false _ _) Hty k v "type" Hin). set_solver.
    + rewrite lookup_insert_ne by done. exists a. split; [done|apply attrs_kept_refl].
  - destruct (clashes ["node_for_adding"; "label"; "type"] props);
      [discriminate|].
    intros [= <-] n a Hn. simpl.
    rewrite lookup_insert_ne by congruence.
    exists a. split; [done|apply attrs_kept_refl].
Qed.

(** [add_edge] leaves the attributes of every node as they are. *)
Lemma nx_add_edge_nodes (G : MultiDiGraph F) u v key attr n a :
  nodes G !! n = Some a → nodes (nx_add_edge G u v key attr) !! n = Some a.
Proof.
  intros Hn. unfold nx_add_edge. simpl.
  assert (Hu : nodes (if nodes G !! u is Some _ then G else add_node G u []) !! n
               = Some a).
  { destruct (nodes G !! u) eqn:Hu; [done|]. simpl.
    rewrite lookup_insert_ne; [done|congruence]. }
  destruct (nodes (if nodes G !! u is Some _ then G else add_node G u []) !! v)
    eqn:Hv; [done|].
  simpl. rewrite lookup_insert_ne; [done|congruence].
Qed.

Lemma add_edge_kept (G : MultiDiGraph F) src rel dst props G' :
  add_edge G src rel dst props = Ok G' → nodes_kept G G'.
Proof.
  unfold add_edge. destruct (clashes _ props); [discriminate|].
  destruct (clashes _ props); [discriminate|].
  intros [= <-] n a Hn. exists a.
  split; [by apply nx_add_edge_nodes|apply attrs_kept_refl].
Qed.

Lemma for_each_kept {A : Type} (body : MultiDiGraph F → A → result (MultiDiGraph F))
    l G G' :
  (∀ G0 x G1, body G0 x = Ok G1 → nodes_kept G0 G1) →
  for_each body l G = Ok G' → nodes_kept G G'.
Proof.
  intros Hbody. revert G. induction l as [|x l IH]; intros G; simpl.
  - intros [= <-]. apply nodes_kept_refl.
  - intros (G1 & H1 & H2)%bind_Ok_inv.
    eapply nodes_kept_trans; [by eapply Hbody|by apply IH].
Qed.

Lemma process_row_kept cols (G : MultiDiGraph F) r G' :
  process_row cols G r = Ok G' → nodes_kept G G'.
Proof.
  unfold process_row. intros Hrow.
  inv_binds Hrow.
  repeat (eapply nodes_kept_trans;
          [first [ by eapply ensure_node_kept; [|eassumption]
                 | by eapply add_edge_kept; eassumption
                 | eapply for_each_kept; [|eassumption];
                   intros ???; by (apply ensure_node_kept) ]|]).
  eapply for_each_kept; [|eassumption].
  intros ???. apply add_edge_kept.
Qed.

Lemma rows_kept cols rws (G : MultiDiGraph F) G' :
  for_each (process_row cols) rws G = Ok G' → nodes_kept G G'.
Proof. apply for_each_kept. intros ???. apply process_row_kept. Qed.

Lemma ok_graph_of (r : result (MultiDiGraph F)) :
  is_ok r = true → r = Ok (graph_of r).
Proof. by destruct r. Qed.

Lemma ok_cleaned (r : gmap string (value F)) :
  is_ok (read_row r) = true → read_row r = Ok (cleaned r).
Proof. unfold cleaned. by destruct (read_row r). Qed.

(** The build of a table and the build of its first rows. *)
Lemma build_prefix cols rows1 rows2 G1 G2 :
  build_graph_from_brews {| columns := cols; rows := rows1 |} = Ok G1 →
  build_graph_from_brews {| columns := cols; rows := rows1 ++ rows2 |} = Ok G2 →
  for_each (process_row cols) rows2 G1 = Ok G2.
Proof.
  unfold build_graph_from_brews. simpl.
  destruct (missing_columns cols); [|discriminate].
  rewrite for_each_app. by intros ->.
Qed.

Lemma build_last_row cols rows1 r G1 G2 :
  build_graph_from_brews {| columns := cols; rows := rows1 |} = Ok G1 →
  build_graph_from_brews {| columns := cols; rows := rows1 ++ [r] |} = Ok G2 →
  process_row cols G1 r = Ok G2.
Proof.
  intros H1 H2. pose proof (build_prefix _ _ _ _ _ H1 H2) as Hr.
  cbn [for_each] in Hr. by destruct (process_row cols G1 r).
Qed.

Lemma ensure_node_present (G : MultiDiGraph F) node_id label node_type props G' :
  ensure_node G node_id label node_type props = Ok G' →
  is_Some (nodes G' !! node_id).
Proof.
  unfold ensure_node. destruct (clashes _ props); [discriminate|].
  destruct (nodes G !! node_id).
  - intros [= <-]. simpl. rewrite lookup_insert_eq. eauto.
  - destruct (clashes _ props); [discriminate|].
    intros [= <-]. simpl. rewrite lookup_insert_eq. eauto.
Qed.

Lemma kept_present (G G' : MultiDiGraph F) n :
  nodes_kept G G' → is_Some (nodes G !! n) → is_Some (nodes G' !! n).
Proof. intros Hk [a Hn]. destruct (Hk n a Hn) as (a' & -> & _). eauto. Qed.

(** After a row, the graph has a node for each entity of the row. *)
Lemma process_row_creates cols (G : MultiDiGraph F) r G' b e :
  process_row cols G r = Ok G' → read_row r = Ok b →
  is_Some (nodes G' !! node_id e b).
Proof.
  unfold process_row. intros Hrow Hb. rewrite Hb in Hrow.
  apply bind_Ok_inv in Hrow as (? & [= <-] & Hrow).
  inv_binds Hrow.
  repeat (match goal with
          | Hc : ensure_node _ _ _ _ _ = Ok _ |- _ =>
              pose proof (ensure_node_present _ _ _ _ _ _ Hc);
              apply ensure_node_kept in Hc; [|reflexivity]
          | Hc : add_edge _ _ _ _ _ = Ok _ |- _ => apply add_edge_kept in Hc
          | Hc : for_each (λ G ni, ensure_node _ _ _ _ _) _ _ = Ok _ |- _ =>
              apply for_each_kept in Hc;
              [|intros ???; by apply ensure_node_kept]
          end).
  apply for_each_kept in Hrow; [|intros ???; apply add_edge_kept].
  destruct e; simpl; eauto 20 using kept_present.
Qed.

Lemma rows_create cols rws (G : MultiDiGraph F) G' r b e :
  for_each (process_row cols) rws G = Ok G' → r ∈ rws → read_row r = Ok b →
  is_Some (nodes G' !! node_id e b).
Proof.
  revert G. induction rws as [|r' rws IH]; intros G; [by intros _ ?%elem_of_nil|].
  cbn [for_each]. intros (G1 & H1 & H2)%bind_Ok_inv [->|Hin]%elem_of_cons Hb.
  - eapply kept_present; [by eapply rows_kept|].
    by eapply process_row_creates.
  - by eapply IH.
Qed.

Lemma build_creates (df : DataFrame F) G r b e :
  build_graph_from_brews df = Ok G → r ∈ rows df → read_row r = Ok b →
  is_Some (nodes G !! node_id e b).
Proof.
  unfold build_graph_from_brews.
  destruct (missing_columns (columns df)); [|discriminate].
  apply rows_create.
Qed.

Lemma node_attr_is_Some (G : MultiDiGraph F) n k v :
  node_attr G n k = Some v → is_Some (nodes G !! n).
Proof. unfold node_attr. destruct (nodes G !! n); [eauto|discriminate]. Qed.

End NodeFacts.

(** C8. Two rows of a table whose natural-key fields for an entity
    normalize to the same slugs resolve to the same node: the identifier
    computed for the entity is the same for both rows, wherever the rows
    stand in the table, and the graph built from the table has a node under
    that identifier. *)
Theorem same_slugs_same_node {F : Type} `{PyFloat F} (df : DataFrame F)
    (G : MultiDiGraph F) (r1 r2 : gmap string (value F)) (b1 b2 : brew F)
    (e : entity) :
  build_graph_from_brews df = Ok G →
  r1 ∈ rows df → r2 ∈ rows df →
  read_row r1 = Ok b1 → read_row r2 = Ok b2 →
  slugify <$> natural_key e b1 = slugify <$> natural_key e b2 →
  node_id e b1 = node_id e b2 ∧
  is_Some (nodes G !! node_id e b1) ∧
  is_Some (nodes G !! node_id e b2).
Proof.
  intros HG Hr1 Hr2 Hb1 Hb2 Hk. split_and!.
  - by apply node_id_of_slugs.
  - exact (build_creates df G r1 b1 e HG Hr1 Hb1).
  - exact (build_creates df G r2 b2 e HG Hr2 Hb2).
Qed.

(** C8 witness: the two rows of the example write the roaster as
    "Blue Bottle" and as "blue-bottle!!". *)
Lemma same_slugs_same_node_witness :
  roaster (cleaned Example.row1) = "Blue Bottle" ∧
  roaster (cleaned Example.row2) = "blue-bottle!!" ∧
  node_id Roaster (cleaned Example.row1) = "roaster:blue-bottle" ∧
  node_id Roaster (cleaned Example.row1) = node_id Roaster (cleaned Example.row2) ∧
  is_Some (nodes Example.G12 !! node_id Roaster (cleaned Example.row1)).
Proof.
  split; [vm_compute; reflexivity|]. split; [vm_compute; reflexivity|].
  split; [vm_compute; reflexivity|].
  destruct (same_slugs_same_node
              {| columns := Example.cols; rows := [Example.row1] ++ [Example.row2] |}
              Example.G12 Example.row1 Example.row2
              (cleaned Example.row1) (cleaned Example.row2) Roaster)
    as (Hid & Hn & _).
  - apply (ok_graph_of (build_graph_from_brews _)). vm_compute. reflexivity.
  - apply list_elem_of_In. left. reflexivity.
  - apply list_elem_of_In. right. left. reflexivity.
  - apply ok_cleaned. vm_compute. reflexivity.
  - apply ok_cleaned. vm_compute. reflexivity.
  - vm_compute. reflexivity.
  - split; [exact Hid|exact Hn].
Defined.

(** C2. First non-empty write wins on node attributes.  Take the graph
    built from the first rows of a table and the graph built from the whole
    table: an attribute of a node that holds a value other than [None] and
    the empty string after the first rows holds the same value at the end,
    whatever the later rows supply for it (another value, an empty string or
    a null). *)
Theorem node_attribute_first_write_wins {F : Type} `{PyFloat F}
    (cols : list string) (rows1 rows2 : list (gmap string (value F)))
    (G1 G2 : MultiDiGraph F) (n k : string) (v : value F) :
  build_graph_from_brews {| columns := cols; rows := rows1 |} = Ok G1 →
  build_graph_from_brews {| columns := cols; rows := rows1 ++ rows2 |} = Ok G2 →
  node_attr G1 n k = Some v → is_blank v = false →
  node_attr G2 n k = Some v.
Proof.
  intros H1 H2 Hv Hb. unfold node_attr in *.
  destruct (nodes G1 !! n) as [a|] eqn:Hn; [|discriminate]. simpl in Hv.
  destruct (rows_kept cols rows2 G1 G2 (build_prefix _ _ _ _ _ H1 H2) n a Hn)
    as (a' & -> & Hkept & _).
  simpl. by apply Hkept.
Qed.

(** C2 witness: the session node of the example keeps the barista of the
    first row although the second row names another one. *)
Lemma node_attribute_first_write_wins_witness :
  Example.row2 !! "barista" = Some (VStr "Bob") ∧
  node_attr Example.G12 "brew:b001" "barista" = Some (VStr "Ann").
Proof.
  split; [reflexivity|].
  apply (node_attribute_first_write_wins Example.cols [Example.row1]
           [Example.row2] Example.G1 Example.G12).
  - apply (ok_graph_of (build_graph_from_brews _)). vm_compute. reflexivity.
  - apply (ok_graph_of (build_graph_from_brews _)). vm_compute. reflexivity.
  - vm_compute. reflexivity.
  - reflexivity.
Defined.

(** C10. The label and the type of a node are permanent: a node present
    after the first rows of a table has the same label and the same type in
    the graph of the whole table, whatever label and type the later rows
    pass to [ensure_node] for it. *)
Theorem node_label_and_type_permanent {F : Type} `{PyFloat F}
    (cols : list string) (rows1 rows2 : list (gmap string (value F)))
    (G1 G2 : MultiDiGraph F) (n : string) :
  build_graph_from_brews {| columns := cols; rows := rows1 |} = Ok G1 →
  build_graph_from_brews {| columns := cols; rows := rows1 ++ rows2 |} = Ok G2 →
  is_Some (nodes G1 !! n) →
  is_Some (nodes G2 !! n) ∧
  node_attr G2 n "label" = node_attr G1 n "label" ∧
  node_attr G2 n "type" = node_attr G1 n "type".
Proof.
  intros H1 H2 [a Hn]. unfold node_attr.
  destruct (rows_kept cols rows2 G1 G2 (build_prefix _ _ _ _ _ H1 H2) n a Hn)
    as (a' & Hn' & _ & Hl & Ht).
  rewrite Hn, Hn'. simpl. by split_and!.
Qed.

(** C10 witness: the roaster node of the example keeps the label of the
    first row although the second row writes the name otherwise. *)
Lemma node_label_and_type_permanent_witness :
  roaster (cleaned Example.row2) = "blue-bottle!!" ∧
  node_attr Example.G12 "roaster:blue-bottle" "label" = Some (VStr "Blue Bottle") ∧
  node_attr Example.G12 "roaster:blue-bottle" "type" = Some (VStr "Roaster").
Proof.
  split; [vm_compute; reflexivity|].
  destruct (node_label_and_type_permanent Example.cols [Example.row1]
              [Example.row2] Example.G1 Example.G12 "roaster:blue-bottle")
    as (_ & Hl & Ht).
  - apply (ok_graph_of (build_graph_from_brews _)). vm_compute. reflexivity.
  - apply (ok_graph_of (build_graph_from_brews _)). vm_compute. reflexivity.
  - apply (node_attr_is_Some Example.G1 "roaster:blue-bottle" "label"
             (VStr "Blue Bottle")).
    vm_compute. reflexivity.
  - split; [rewrite Hl|rewrite Ht]; vm_compute; reflexivity.
Defined.

(** * Edges are updated key by key *)

Section EdgeFacts.

Context {F : Type} `{PyFloat F}.

Lemma update_lookup (d : gmap string (value F)) attr k :
  update d attr !! k = last_value attr k (d !! k).
Proof.
  unfold update. revert d.
  induction attr as [|[k' v] attr IH]; intros d; simpl; [done|].
  rewrite IH. f_equal. destruct (String.eqb_spec k' k) as [->|Hne].
  - by rewrite lookup_insert_eq.
  - by rewrite lookup_insert_ne.
Qed.

Lemma replay_app (es1 es2 : list (emission F)) e k cur :
  replay (es1 ++ es2) e k cur = replay es2 e k (replay es1 e k cur).
Proof.
  revert cur. induction es1 as [|[[[s rel] d] p] es1 IH]; intros cur; [done|].
  simpl. apply IH.
Qed.

Lemma ensure_node_edges (G : MultiDiGraph F) node_id label node_type props G' :
  ensure_node G node_id label node_type props = Ok G' → edges G' = edges G.
Proof.
  unfold ensure_node. destruct (clashes _ props); [discriminate|].
  destruct (nodes G !! node_id).
  - by intros [= <-].
  - destruct (clashes _ props); [discriminate|]. by intros [= <-].
Qed.

Lemma nx_add_edge_edges (G : MultiDiGraph F) u v key attr :
  edges (nx_add_edge G u v key attr) =
  <[(u, v, key) := update (default ∅ (edges G !! (u, v, key))) attr]> (edges G).
Proof.
  unfold nx_add_edge.
  assert (Hu : edges (if nodes G !! u is Some _ then G else add_node G u [])
               = edges G) by by destruct (nodes G !! u).
  set (Gu := if nodes G !! u is Some _ then G else add_node G u []) in *.
  assert (Hv : edges (if nodes Gu !! v is Some _ then Gu else add_node Gu v [])
               = edges G) by by destruct (nodes Gu !! v).
  simpl. by rewrite Hv.
Qed.

Lemma add_edge_attr (G : MultiDiGraph F) src rel dst props G' e k :
  add_edge G src rel dst props = Ok G' →
  edge_attr G' e k = replay [(src, rel, dst, props)] e k (edge_attr G e k).
Proof.
  unfold add_edge. destruct (clashes _ props); [discriminate|].
  destruct (clashes _ props); [discriminate|].
  intros [= <-]. unfold edge_attr. rewrite nx_add_edge_edges.
  cbn [replay]. destruct (decide (e = (src, dst, rel))) as [->|Hne].
  - rewrite lookup_insert_eq. cbn [mbind option_bind].
    rewrite update_lookup. f_equal.
    by destruct (edges G !! (src, dst, rel)).
  - by rewrite lookup_insert_ne.
Qed.

Lemma ensure_node_attr (G : MultiDiGraph F) node_id label node_type props G' e k :
  ensure_node G node_id label node_type props = Ok G' →
  edge_attr G' e k = edge_attr G e k.
Proof. intros Hn. unfold edge_attr. by rewrite (ensure_node_edges _ _ _ _ _ _ Hn). Qed.

Lemma for_each_note_nodes_attr (notes : dict Z) (G G' : MultiDiGraph F) e k :
  for_each (λ G ni, ensure_node G (note_id ni.1) ni.1 "FlavorNote" []) notes G
    = Ok G' →
  edge_attr G' e k = edge_attr G e k.
Proof.
  revert G. induction notes as [|ni notes IH]; intros G; cbn [for_each].
  - by intros [= <-].
  - intros (G1 & H1 & H2)%bind_Ok_inv.
    by rewrite (IH _ H2), (ensure_node_attr _ _ _ _ _ _ _ _ H1).
Qed.

Lemma for_each_note_edges_attr (src : string) (notes : dict Z)
    (G G' : MultiDiGraph F) e k :
  for_each (λ G ni, add_edge G src "HAS_NOTE" (note_id ni.1)
                      [("intensity", VInt ni.2)]) notes G = Ok G' →
  edge_attr G' e k =
  replay ((λ ni : string * Z,
             (src, "HAS_NOTE", note_id ni.1, [("intensity", VInt ni.2)]))
            <$> notes) e k (edge_attr G e k).
Proof.
  revert G. induction notes as [|ni notes IH]; intros G; cbn [for_each].
  - by intros [= <-].
  - intros (G1 & H1 & H2)%bind_Ok_inv.
    rewrite (IH _ H2), (add_edge_attr _ _ _ _ _ _ e k H1). done.
Qed.

(** After a row, every key of every edge holds what the calls of the row
    wrote to it last, or what it held before the row. *)
Lemma process_row_replay cols (G : MultiDiGraph F) r G' b e k :
  process_row cols G r = Ok G' → read_row r = Ok b →
  edge_attr G' e k = replay (row_edges cols r b) e k (edge_attr G e k).
Proof.
  unfold process_row. intros Hrow Hb. rewrite Hb in Hrow.
  apply bind_Ok_inv in Hrow as (? & [= <-] & Hrow).
  inv_binds Hrow.
  rewrite (for_each_note_edges_attr _ _ _ _ e k Hrow).
  repeat (match goal with
          | Hc : add_edge ?g _ _ _ _ = Ok ?g' |- context [edge_attr ?g' e k] =>
              rewrite (add_edge_attr _ _ _ _ _ _ e k Hc)
          end).
  repeat (match goal with
          | Hc : ensure_node ?g _ _ _ _ = Ok ?g' |- context [edge_attr ?g' e k] =>
              rewrite (ensure_node_attr _ _ _ _ _ _ e k Hc)
          | Hc : for_each _ _ ?g = Ok ?g' |- context [edge_attr ?g' e k] =>
              rewrite (for_each_note_nodes_attr _ _ _ e k Hc)
          end).
  unfold row_edges. by rewrite replay_app.
Qed.

End EdgeFacts.

Section MethodParamsFacts.

Context {F : Type} `{PyFloat F}.

Lemma dict_get_set_eq {V : Type} (d : dict V) k v :
  dict_get k (dict_set k v d) = Some v.
Proof.
  induction d as [|[k' v'] d IH]; simpl.
  - by rewrite String.eqb_refl.
  - destruct (String.eqb k' k) eqn:Hk; simpl; by rewrite Hk.
Qed.

Lemma dict_get_set_ne {V : Type} (d : dict V) k k' v :
  k ≠ k' → dict_get k' (dict_set k v d) = dict_get k' d.
Proof.
  intros Hne. induction d as [|[k0 v0] d IH]; simpl.
  - by rewrite (proj2 (String.eqb_neq k k')).
  - destruct (String.eqb_spec k0 k) as [->|Hk0]; simpl.
    + by rewrite (proj2 (String.eqb_neq k k')).
    + by rewrite IH.
Qed.

Lemma dict_get_None {V : Type} (d : dict V) k :
  dict_get k d = None ↔ k ∉ d.*1.
Proof.
  induction d as [|[k' v'] d IH]; simpl.
  - split; [intros _; apply not_elem_of_nil|done].
  - rewrite not_elem_of_cons, <- IH.
    destruct (String.eqb_spec k' k) as [->|Hne]; [|intuition congruence].
    split; [discriminate|]. by intros [? _].
Qed.

Lemma dict_set_keys {V : Type} (d : dict V) k v k' :
  k' ∈ (dict_set k v d).*1 ↔ k' = k ∨ k' ∈ d.*1.
Proof.
  induction d as [|[k0 v0] d IH]; simpl.
  - rewrite list_elem_of_singleton, elem_of_nil. tauto.
  - destruct (String.eqb_spec k0 k) as [->|Hne]; simpl.
    + rewrite !elem_of_cons. tauto.
    + rewrite !elem_of_cons, IH. tauto.
Qed.

Lemma dict_set_NoDup {V : Type} (d : dict V) k v :
  NoDup d.*1 → NoDup (dict_set k v d).*1.
Proof.
  induction d as [|[k0 v0] d IH]; simpl.
  - intros _. apply NoDup_singleton.
  - intros [Hk0 Hd]%NoDup_cons.
    destruct (String.eqb_spec k0 k) as [->|Hne]; simpl.
    + by apply NoDup_cons.
    + apply NoDup_cons. split; [|by apply IH].
      rewrite dict_set_keys. intros [->|Hin]; [by apply Hne|by apply Hk0].
Qed.

(** In a dictionary, the last value written to a key is the value of the
    key. *)
Lemma last_value_dict {V : Type} (d : dict V) k cur :
  NoDup d.*1 → last_value d k cur = from_option Some cur (dict_get k d).
Proof.
  revert cur. induction d as [|[k' v'] d IH]; intros cur; simpl; [done|].
  intros [Hk' Hd]%NoDup_cons. rewrite (IH _ Hd).
  destruct (String.eqb_spec k' k) as [->|Hne]; [|done].
  by rewrite (proj2 (dict_get_None d k) Hk').
Qed.

Lemma method_param_eq (r : gmap string (value F)) mp col :
  method_param r mp col =
  if negb (str_in col core_columns) && present (get r col VNone)
  then dict_set col (coerce (get r col VNone)) mp
  else mp.
Proof.
  unfold method_param, present, coerce.
  destruct (negb (str_in col core_columns)); simpl; [|done].
  destruct (notna (get r col VNone) && _); [|done].
  by destruct (py_float (get r col VNone)) as [x|[m|m]].
Qed.

Lemma method_params_fold_NoDup (r : gmap string (value F)) cols acc :
  NoDup acc.*1 → NoDup (fold_left (method_param r) cols acc).*1.
Proof.
  revert acc. induction cols as [|col cols IH]; intros acc Hacc; simpl; [done|].
  apply IH. rewrite method_param_eq.
  destruct (_ && _); [by apply dict_set_NoDup|done].
Qed.

Lemma method_params_NoDup cols (r : gmap string (value F)) m :
  NoDup (method_params cols r m).*1.
Proof.
  apply method_params_fold_NoDup. simpl. apply NoDup_singleton.
Qed.

Lemma str_in_cons c col cols :
  str_in c (col :: cols) = String.eqb c col || str_in c cols.
Proof. reflexivity. Qed.

Lemma method_params_fold_get (r : gmap string (value F)) cols acc c :
  dict_get c (fold_left (method_param r) cols acc) =
  if str_in c cols && (negb (str_in c core_columns) && present (get r c VNone))
  then Some (coerce (get r c VNone))
  else dict_get c acc.
Proof.
  revert acc. induction cols as [|col cols IH]; intros acc; [done|].
  cbn [fold_left]. rewrite IH, method_param_eq, str_in_cons.
  destruct (String.eqb_spec c col) as [<-|Hne]; cbn [orb andb].
  - destruct (negb (str_in c core_columns) && present (get r c VNone)) eqn:Hd.
    + rewrite dict_get_set_eq. by destruct (str_in c cols).
    + by rewrite andb_false_r.
  - destruct (negb (str_in col core_columns) && present (get r col VNone));
      [|done].
    rewrite dict_get_set_ne; [done|congruence].
Qed.

Lemma method_params_get cols (r : gmap string (value F)) m c :
  str_in c core_columns = false →
  dict_get c (method_params cols r m) =
  if str_in c cols && present (get r c VNone)
  then Some (coerce (get r c VNone))
  else None.
Proof.
  intros Hdyn. unfold method_params. rewrite method_params_fold_get, Hdyn.
  cbn [negb andb]. destruct (_ && _); [done|].
  cbn [dict_get]. destruct (String.eqb_spec "brew_method" c) as [<-|Hne]; [|done].
  discriminate.
Qed.

Lemma replay_other_rel (es : list (emission F)) e k cur :
  Forall (λ em, em.1.1.2 ≠ e.2) es → replay es e k cur = cur.
Proof.
  revert cur. induction es as [|[[[s rel] d] p] es IH]; intros cur; [done|].
  intros [Hrel Hes]%Forall_cons. cbn [replay].
  rewrite decide_False; [by apply IH|].
  intros ->. by apply Hrel.
Qed.

Lemma replay_cons_other (es : list (emission F)) src rel dst props e k cur :
  e.2 ≠ rel →
  replay ((src, rel, dst, props) :: es) e k cur = replay es e k cur.
Proof.
  intros Hrel. cbn [replay]. rewrite decide_False; [done|].
  intros ->. by apply Hrel.
Qed.

Lemma replay_cons_same (es : list (emission F)) src rel dst props k cur :
  replay ((src, rel, dst, props) :: es) (src, dst, rel) k cur =
  replay es (src, dst, rel) k (last_value (("type", VStr rel) :: props) k cur).
Proof. cbn [replay]. by rewrite decide_True. Qed.

(** The BREWED_WITH edge of a row is written by one call of the row only. *)
Lemma brewed_with_attr cols (G : MultiDiGraph F) r G' b k :
  process_row cols G r = Ok G' → read_row r = Ok b →
  edge_attr G' (brew_session_id b, brewer_id b, "BREWED_WITH") k =
  last_value (("type", VStr "BREWED_WITH") :: method_params cols r (brew_method b))
    k (edge_attr G (brew_session_id b, brewer_id b, "BREWED_WITH") k).
Proof.
  intros Hrow Hb. rewrite (process_row_replay _ _ _ _ _ _ _ Hrow Hb).
  unfold row_edges. etrans; [apply replay_app|].
  rewrite replay_other_rel.
  - rewrite !replay_cons_other by done.
    rewrite replay_cons_same.
    by rewrite !replay_cons_other by done.
  - apply Forall_fmap, Forall_forall. intros ni _. simpl. discriminate.
Qed.

Lemma brewed_with_written cols (G : MultiDiGraph F) r G' b k v :
  process_row cols G r = Ok G' → read_row r = Ok b →
  dict_get k (method_params cols r (brew_method b)) = Some v →
  edge_attr G' (brew_session_id b, brewer_id b, "BREWED_WITH") k = Some v.
Proof.
  intros Hrow Hb Hk. rewrite (brewed_with_attr _ _ _ _ _ _ Hrow Hb).
  cbn [last_value]. rewrite last_value_dict by apply method_params_NoDup.
  by rewrite Hk.
Qed.

Lemma brewed_with_survives cols (G : MultiDiGraph F) r G' b k :
  process_row cols G r = Ok G' → read_row r = Ok b →
  k ≠ "type" → dict_get k (method_params cols r (brew_method b)) = None →
  edge_attr G' (brew_session_id b, brewer_id b, "BREWED_WITH") k =
  edge_attr G (brew_session_id b, brewer_id b, "BREWED_WITH") k.
Proof.
  intros Hrow Hb Hty Hk. rewrite (brewed_with_attr _ _ _ _ _ _ Hrow Hb).
  cbn [last_value]. rewrite (proj2 (String.eqb_neq "type" k)) by done.
  rewrite last_value_dict by apply method_params_NoDup.
  by rewrite Hk.
Qed.

End MethodParamsFacts.

(** C1, as the code has it.  Re-adding an edge updates its attributes key
    by key.  After a row is processed, each key of each edge holds the value
    that the calls of the row wrote to it last, and what it held before the
    row when no call of the row writes it.  For the BREWED_WITH edge: every
    key of the row's method parameters carries the row's value, and a key
    other than [type] that the row does not supply keeps the value an
    earlier row gave it. *)
Theorem edge_readd_updates_key_by_key {F : Type} `{PyFloat F}
    (cols : list string) (G : MultiDiGraph F) (r : gmap string (value F))
    (G' : MultiDiGraph F) (b : brew F) :
  process_row cols G r = Ok G' → read_row r = Ok b →
  (∀ e k, edge_attr G' e k = replay (row_edges cols r b) e k (edge_attr G e k)) ∧
  (∀ k v, dict_get k (method_params cols r (brew_method b)) = Some v →
     edge_attr G' (brew_session_id b, brewer_id b, "BREWED_WITH") k = Some v) ∧
  (∀ k, k ≠ "type" →
     dict_get k (method_params cols r (brew_method b)) = None →
     edge_attr G' (brew_session_id b, brewer_id b, "BREWED_WITH") k =
     edge_attr G (brew_session_id b, brewer_id b, "BREWED_WITH") k).
Proof.
  intros Hrow Hb. split_and!.
  - intros e k. exact (process_row_replay cols G r G' b e k Hrow Hb).
  - intros k v. exact (brewed_with_written cols G r G' b k v Hrow Hb).
  - intros k. exact (brewed_with_survives cols G r G' b k Hrow Hb).
Qed.

(** C1 witness: the second row of the example, processed on the graph of
    the first. *)
Lemma edge_readd_updates_key_by_key_witness :
  edge_attr Example.G12 Example.brewed_with "brew_method" = Some (VStr "ristretto") ∧
  edge_attr Example.G12 Example.brewed_with "water_temp_c" =
  edge_attr Example.G1 Example.brewed_with "water_temp_c".
Proof.
  assert (Hrow : process_row Example.cols Example.G1 Example.row2 = Ok Example.G12).
  { apply (build_last_row _ [Example.row1]);
      apply (ok_graph_of (build_graph_from_brews _)); vm_compute; reflexivity. }
  assert (Hb : read_row Example.row2 = Ok (cleaned Example.row2)).
  { apply ok_cleaned. vm_compute. reflexivity. }
  destruct (edge_readd_updates_key_by_key _ _ _ _ _ Hrow Hb) as (_ & Hw & Hs).
  split.
  - apply (Hw "brew_method" (VStr "ristretto")). vm_compute. reflexivity.
  - apply (Hs "water_temp_c"); [discriminate|]. vm_compute. reflexivity.
Defined.

(** C1, counterexample to the statement of the specification.  Both rows
    of the example give the edge
    (brew:b001, brewer:la-marzocco-linea, BREWED_WITH).  The first row's
    payload has water_temp_c, the second row's payload has not, and the edge
    of the final graph still carries the first row's water_temp_c next to
    the second row's brew_method. *)
Lemma edge_payload_key_survives :
  is_ok (build_graph_from_brews
           {| columns := Example.cols; rows := [Example.row1] ++ [Example.row2] |})
    = true ∧
  (brew_session_id (cleaned Example.row1), brewer_id (cleaned Example.row1),
   "BREWED_WITH") = Example.brewed_with ∧
  (brew_session_id (cleaned Example.row2), brewer_id (cleaned Example.row2),
   "BREWED_WITH") = Example.brewed_with ∧
  edge_attr Example.G1 Example.brewed_with "water_temp_c"
    = Some (VFloat (Dec.Fin 93 0)) ∧
  dict_get "water_temp_c" (method_params Example.cols Example.row2 "ristretto")
    = None ∧
  edge_attr Example.G12 Example.brewed_with "brew_method"
    = Some (VStr "ristretto") ∧
  edge_attr Example.G12 Example.brewed_with "water_temp_c"
    = Some (VFloat (Dec.Fin 93 0)).
Proof. repeat split; vm_compute; reflexivity. Qed.




(** * More on the identifier normalizer *)

Section SlugShape.

Lemma slug_from_chars s b :
  slug_from b s = true →
  all_chars (λ c, slug_char c || Str.is_hyphen c) s = true.
Proof.
  revert b. induction s as [|c s IH]; intros b; simpl; [done|].
  destruct (slug_char c) eqn:Hc; simpl.
  - apply IH.
  - intros [[-> _]%andb_prop Hs]%andb_prop. simpl. by eapply IH.
Qed.

Lemma slug_from_no_double_hyphen p q b :
  slug_from b (p +:+ "--" +:+ q) = false.
Proof.
  revert b. induction p as [|c p IH]; intros b.
  - change ("" +:+ "--" +:+ q) with (String "-" (String "-" q)).
    cbn [slug_from]. rewrite !andb_false_r. by destruct b.
  - rewrite string_app_cons. cbn [slug_from].
    destruct (slug_char c); [apply IH|]. by rewrite IH, andb_false_r.
Qed.

Lemma slug_from_no_last_hyphen p b : slug_from b (p +:+ "-") = false.
Proof.
  revert b. induction p as [|c p IH]; intros b.
  - by destruct b.
  - rewrite string_app_cons. cbn [slug_from].
    destruct (slug_char c); [apply IH|]. by rewrite IH, andb_false_r.
Qed.





End SlugShape.

(** X1. Whatever the input, [slugify] returns a token that is not empty, is
    made of the characters a-z, 0-9 and the hyphen only, does not begin or
    end with a hyphen and has no two hyphens in a row. *)
Theorem slugify_output_shape (s : string) :
  Str.is_empty (slugify s) = false ∧
  all_chars (λ c, slug_char c || Str.is_hyphen c) (slugify s) = true ∧
  (∀ r, slugify s ≠ String "-" r) ∧
  (∀ p, slugify s ≠ p +:+ "-") ∧
  (∀ p q, slugify s ≠ p +:+ "--" +:+ q).
Proof.
  pose proof (slugify_is_slug s) as Hs. unfold is_slug in Hs.
  split_and!.
  - by destruct (slugify s).
  - by eapply slug_from_chars.
  - intros r Hr. rewrite Hr in Hs. discriminate.
  - intros p Hp. rewrite Hp, slug_from_no_last_hyphen in Hs. discriminate.
  - intros p q Hp. rewrite Hp, slug_from_no_double_hyphen in Hs. discriminate.
Qed.

(** X2. [slugify] does not see the case of letters: two strings that are
    equal once lowercased have the same slug. *)
Theorem slugify_ignores_case (s1 s2 : string) :
  Str.lower s1 = Str.lower s2 → slugify s1 = slugify s2.
Proof. intros Hl. by rewrite <- (slugify_lower s1), Hl, slugify_lower. Qed.

Lemma slugify_ignores_case_witness :
  slugify "La Marzocco" = slugify "LA MARZOCCO".
Proof. apply slugify_ignores_case. vm_compute. reflexivity. Defined.



(** * More on node identity *)

Section IdentityInjectivity.

Lemma slug_from_no_colon s b :
  slug_from b s = true → Str.contains ":" s = false.
Proof.
  revert b. induction s as [|c s IH]; intros b; simpl; [done|].
  destruct (slug_char c) eqn:Hc.
  - intros Hs. rewrite (IH _ Hs), orb_false_r.
    revert Hc. by_ascii_cases c.
  - intros [[Hh _]%andb_prop Hs]%andb_prop. rewrite (IH _ Hs), orb_false_r.
    by rewrite (is_hyphen_eq c Hh).
Qed.

Lemma slugify_no_colon s : Str.contains ":" (slugify s) = false.
Proof. apply (slug_from_no_colon _ true), slugify_is_slug. Qed.

(** Two texts without colon that are followed by a colon are read back
    from the whole. *)
Lemma string_app_nil_l (s : string) : "" +:+ s = s.
Proof. reflexivity. Qed.

Lemma app_colon_inj s1 s2 t1 t2 :
  Str.contains ":" s1 = false → Str.contains ":" s2 = false →
  s1 +:+ ":" +:+ t1 = s2 +:+ ":" +:+ t2 → s1 = s2 ∧ t1 = t2.
Proof.
  revert s2. induction s1 as [|c s1 IH]; intros [|c' s2];
    cbn [Str.contains]; rewrite ?string_app_cons, ?string_app_nil_l.
  - intros _ _ [= ->]. done.
  - intros _ [Hc _]%orb_false_elim [= <- _].
    by rewrite Ascii.eqb_refl in Hc.
  - intros [Hc _]%orb_false_elim _ [= -> _].
    by rewrite Ascii.eqb_refl in Hc.
  - intros [_ H1]%orb_false_elim [_ H2]%orb_false_elim [= -> Heq].
    destruct (IH s2 H1 H2 Heq) as [-> ->]. done.
Qed.

Lemma slug_from_join a b p :
  slug_from p a = true → slug_from true b = true →
  slug_from p (a +:+ "-" +:+ b) = true.
Proof.
  revert p. induction a as [|c a IH]; intros p.
  - destruct p; [discriminate|]. intros _ Hb.
    change ("" +:+ "-" +:+ b) with (String "-" b). cbn [slug_from].
    by rewrite Hb.
  - rewrite string_app_cons. cbn [slug_from].
    destruct (slug_char c); [apply IH|].
    intros [-> Ha]%andb_prop Hb. simpl. by apply IH.
Qed.

End IdentityInjectivity.

(** X4. For every entity kind but the brewer the node identifier determines
    the slugs of the natural key: two rows that get the same identifier have
    the same slug for every key field (the colon that separates the slugs in
    the identifier never occurs in a slug). *)
Theorem node_id_determines_slugs {F : Type} (e : entity) (b1 b2 : brew F) :
  e ≠ Brewer →
  node_id e b1 = node_id e b2 →
  slugify <$> natural_key e b1 = slugify <$> natural_key e b2.
Proof.
  intros He.
  destruct e; try done; simpl;
    unfold roaster_id, beanlot_id, roastbatch_id, grinder_id,
      brew_session_id, eval_id;
    intros Heq%(inj (String.app _)).
  - by rewrite Heq.
  - apply app_colon_inj in Heq as [-> ->]; [done|apply slugify_no_colon..].
  - apply app_colon_inj in Heq as [-> Heq]; [|apply slugify_no_colon..].
    apply app_colon_inj in Heq as [-> ->]; [done|apply slugify_no_colon..].
  - by rewrite Heq.
  - by rewrite Heq.
  - by rewrite Heq.
Qed.

Lemma node_id_determines_slugs_witness :
  slugify <$> natural_key BeanLot (cleaned Example.row1) =
  slugify <$> natural_key BeanLot (cleaned Example.row2).
Proof.
  apply node_id_determines_slugs; [discriminate|]. vm_compute. reflexivity.
Defined.

(** X5. The brewer identifier joins the two slugs with a hyphen, which also
    occurs inside slugs: a brewer of brand a-b and model c and a brewer of
    brand a and model b-c get the same identifier, for all slugs a, b, c. *)
Theorem brewer_id_merges_keys {F : Type} (b1 b2 : brew F) (a b c : string) :
  is_slug a = true → is_slug b = true → is_slug c = true →
  brewer_brand b1 = a +:+ "-" +:+ b → brewer_model b1 = c →
  brewer_brand b2 = a → brewer_model b2 = b +:+ "-" +:+ c →
  brewer_id b1 = brewer_id b2 ∧
  slugify (brewer_brand b1) = a +:+ "-" +:+ b ∧
  slugify (brewer_brand b2) = a.
Proof.
  intros Ha Hb Hc Hb1 Hm1 Hb2 Hm2. unfold brewer_id.
  rewrite Hb1, Hm1, Hb2, Hm2.
  rewrite (slugify_slug (a +:+ "-" +:+ b)) by by apply slug_from_join.
  rewrite (slugify_slug (b +:+ "-" +:+ c)) by by apply slug_from_join.
  rewrite (slugify_slug a Ha), (slugify_slug c Hc).
  split; [|done]. by rewrite !string_app_assoc.
Qed.

Lemma brewer_id_merges_keys_witness :
  brewer_brand (cleaned row_acme_pro) = "acme-pro" ∧
  brewer_brand (cleaned row_acme) = "acme" ∧
  brewer_id (cleaned row_acme_pro) = brewer_id (cleaned row_acme).
Proof.
  split; [vm_compute; reflexivity|]. split; [vm_compute; reflexivity|].
  apply (brewer_id_merges_keys (cleaned row_acme_pro) (cleaned row_acme)
           "acme" "pro" "x1"); vm_compute; reflexivity.
Defined.

(** X6. Entities of different kinds never share a node: the identifiers of
    two kinds of entity are different whatever the rows, and no entity
    identifier is the identifier of a flavor note. *)
Theorem node_kinds_never_collide {F : Type} :
  (∀ (e1 e2 : entity) (b1 b2 : brew F),
     node_id e1 b1 = node_id e2 b2 → e1 = e2) ∧
  (∀ (e : entity) (b : brew F) (note : string), node_id e b ≠ note_id note).
Proof.
  split.
  - intros e1 e2 b1 b2.
    destruct e1, e2; try done; simpl;
      unfold roaster_id, beanlot_id, roastbatch_id, grinder_id, brewer_id,
        brew_session_id, eval_id;
      rewrite ?string_app_cons, ?string_app_nil_l; discriminate.
  - intros e b note.
    destruct e; simpl;
      unfold roaster_id, beanlot_id, roastbatch_id, grinder_id, brewer_id,
        brew_session_id, eval_id, note_id;
      rewrite ?string_app_cons, ?string_app_nil_l; discriminate.
Qed.

(** * More on the structured-field parser *)

Section ParserMapping.

Lemma lstrip_head_kept p s :
  Str.lstrip p (Str.rstrip p (Str.lstrip p s)) = Str.rstrip p (Str.lstrip p s).
Proof.
  induction s as [|c s IH]; [done|]. cbn [Str.lstrip].
  destruct (p c) eqn:Hc; [exact IH|].
  cbn [Str.rstrip]. destruct (Str.rstrip p s); rewrite ?Hc;
    cbn [Str.lstrip]; by rewrite Hc.
Qed.

Lemma rstrip_idem p s : Str.rstrip p (Str.rstrip p s) = Str.rstrip p s.
Proof.
  induction s as [|c s IH]; [done|]. cbn [Str.rstrip].
  destruct (Str.rstrip p s) as [|c' r] eqn:Hr.
  - destruct (p c) eqn:Hc; simpl; [done|by rewrite Hc].
  - cbn [Str.rstrip] in *. by rewrite IH.
Qed.

Lemma strip_idem s : Str.strip (Str.strip s) = Str.strip s.
Proof.
  unfold Str.strip, Str.strip_by. by rewrite lstrip_head_kept, rstrip_idem.
Qed.

Lemma segment_entry_key p k n :
  segment_entry p = Some (k, n) → Str.strip k = k ∧ Str.is_empty k = false.
Proof.
  unfold segment_entry. destruct (Str.split_once ":" p) as [[a b]|]; [|done].
  destruct (py_int (Str.strip b)); [|done].
  destruct (Str.is_empty (Str.strip a)) eqn:He; [done|].
  intros [= <- _]. by rewrite strip_idem.
Qed.

Lemma dict_of_entries_get {V : Type} (l : list (string * V)) acc k :
  dict_get k (fold_left (λ d e, dict_set e.1 e.2 d) l acc) =
  last_value l k (dict_get k acc).
Proof.
  revert acc. induction l as [|[k' v] l IH]; intros acc; [done|].
  cbn [fold_left last_value]. rewrite IH. f_equal. simpl.
  destruct (String.eqb_spec k' k) as [->|Hne].
  - apply dict_get_set_eq.
  - by apply dict_get_set_ne.
Qed.

Lemma dict_of_entries_NoDup {V : Type} (l : list (string * V)) acc :
  NoDup acc.*1 → NoDup (fold_left (λ d e, dict_set e.1 e.2 d) l acc).*1.
Proof.
  revert acc. induction l as [|[k' v] l IH]; intros acc Hacc; [done|].
  cbn [fold_left]. by apply IH, dict_set_NoDup.
Qed.

Lemma last_value_Some_elem {V : Type} (l : list (string * V)) k v :
  last_value l k None = Some v → (k, v) ∈ l.
Proof.
  assert (Hgen : ∀ cur, last_value l k cur = Some v →
                        (k, v) ∈ l ∨ cur = Some v).
  { induction l as [|[k' v'] l IH]; intros cur; cbn [last_value]; [by right|].
    intros [Hin|Hc]%IH; [left; by constructor|].
    destruct (String.eqb_spec k' k) as [->|Hne]; [|by right].
    injection Hc as ->. left. by constructor. }
  intros [?|?]%Hgen; done.
Qed.

End ParserMapping.

(** X7. The mapping parsed from a cell has each key once; every key is
    trimmed and not empty; and the intensity of a key is the one of the last
    well-formed segment of the cell with that key (later occurrences
    overwrite earlier ones). *)
Theorem parsed_notes_are_a_mapping {F : Type} (s : string) (d : dict Z) :
  parse_note_intensities (F:=F) (VStr s) = Ok d →
  NoDup d.*1 ∧
  (∀ k n, dict_get k d = Some n → Str.strip k = k ∧ Str.is_empty k = false) ∧
  (∀ k, Str.is_empty (Str.strip s) = false →
        dict_get k d = last_value (omap segment_entry (segments s)) k None).
Proof.
  unfold parse_note_intensities.
  destruct (Str.is_empty (Str.strip s)).
  { intros [= <-]. split_and!; [constructor|done|done]. }
  rewrite for_each_parse_segment. intros [= <-]. split_and!.
  - apply dict_of_entries_NoDup. constructor.
  - intros k n. rewrite dict_of_entries_get. intros Hin%last_value_Some_elem.
    apply list_elem_of_omap in Hin as (p & _ & Hp).
    by eapply segment_entry_key.
  - intros k _. by rewrite dict_of_entries_get.
Qed.

Lemma parsed_notes_are_a_mapping_witness :
  dict_get "fruit" [("fruit", 5)] =
  last_value (omap segment_entry (segments "fruit:3; fruit :5;x")) "fruit" None.
Proof.
  destruct (parsed_notes_are_a_mapping (F:=Dec.dec) "fruit:3; fruit :5;x"
              [("fruit", 5)]) as (_ & _ & Hlast).
  - vm_compute. reflexivity.
  - apply Hlast. vm_compute. reflexivity.
Defined.

Section ParserComposition.

Lemma split_nonempty sep s : Str.split sep s ≠ [].
Proof.
  destruct s as [|c s]; simpl; [done|].
  destruct (Ascii.eqb c sep); [done|]. by destruct (Str.split sep s).
Qed.

Lemma split_app sep s1 s2 :
  Str.split sep (s1 +:+ String sep s2) = Str.split sep s1 ++ Str.split sep s2.
Proof.
  induction s1 as [|c s1 IH].
  - rewrite string_app_nil_l. simpl. by rewrite Ascii.eqb_refl.
  - rewrite string_app_cons. cbn [Str.split]. rewrite IH.
    destruct (Ascii.eqb c sep); [done|].
    pose proof (split_nonempty sep s1). by destruct (Str.split sep s1).
Qed.

Lemma segments_app s1 s2 :
  segments (s1 +:+ ";" +:+ s2) = segments s1 ++ segments s2.
Proof.
  unfold segments.
  change (";" +:+ s2) with (String ";" s2).
  by rewrite split_app, List.filter_app, fmap_app.
Qed.

Lemma all_chars_app p s1 s2 :
  all_chars p (s1 +:+ s2) = all_chars p s1 && all_chars p s2.
Proof.
  induction s1 as [|c s1 IH]; [done|].
  rewrite string_app_cons. simpl. by rewrite IH, andb_assoc.
Qed.

Lemma strip_by_empty p s : Str.is_empty (Str.strip_by p s) = all_chars p s.
Proof.
  unfold Str.strip_by. induction s as [|c s IH]; [done|].
  cbn [Str.lstrip all_chars]. destruct (p c) eqn:Hc; [exact IH|].
  cbn [Str.rstrip]. destruct (Str.rstrip p s); by rewrite ?Hc.
Qed.

Lemma split_without_sep sep s :
  all_chars (λ c, negb (Ascii.eqb c sep)) s = true → Str.split sep s = [s].
Proof.
  induction s as [|c s IH]; [done|]. cbn [all_chars Str.split].
  intros [Hc Hs]%andb_prop. apply negb_true_iff in Hc. by rewrite Hc, IH.
Qed.

Lemma all_chars_impl (p q : ascii → bool) s :
  (∀ c, p c = true → q c = true) → all_chars p s = true → all_chars q s = true.
Proof.
  intros Hpq. induction s as [|c s IH]; [done|]. simpl.
  intros [Hc Hs]%andb_prop. by rewrite (Hpq c Hc), IH.
Qed.

Lemma space_is_not_semicolon c :
  Str.isspace c = true → negb (Ascii.eqb c ";") = true.
Proof. by_ascii_cases c. Qed.

Lemma segments_blank s : Str.is_empty (Str.strip s) = true → segments s = [].
Proof.
  intros Hs. unfold segments. rewrite split_without_sep.
  - simpl. by rewrite Hs.
  - unfold Str.strip in Hs. rewrite strip_by_empty in Hs.
    by apply (all_chars_impl _ _ _ space_is_not_semicolon).
Qed.

Lemma parse_as_fold {F : Type} s :
  parse_note_intensities (F:=F) (VStr s) =
  Ok (fold_left (λ d e, dict_set e.1 e.2 d) (omap segment_entry (segments s)) []).
Proof.
  unfold parse_note_intensities.
  destruct (Str.is_empty (Str.strip s)) eqn:Hs.
  - by rewrite segments_blank.
  - apply for_each_parse_segment.
Qed.

End ParserComposition.

(** X8. Cells compose: the mapping parsed from [s1;s2] is the mapping parsed
    from [s1] in which the well-formed segments of [s2] are then written in
    order, overwriting the keys they share and adding the others. *)
Theorem parse_of_joined_cells {F : Type} (s1 s2 : string) (d1 : dict Z) :
  parse_note_intensities (F:=F) (VStr s1) = Ok d1 →
  parse_note_intensities (F:=F) (VStr (s1 +:+ ";" +:+ s2)) =
  Ok (fold_left (λ d e, dict_set e.1 e.2 d)
        (omap segment_entry (segments s2)) d1).
Proof.
  rewrite !parse_as_fold. intros [= <-].
  by rewrite segments_app, omap_app, fold_left_app.
Qed.

Lemma parse_of_joined_cells_witness :
  parse_note_intensities (F:=Dec.dec) (VStr ("nut:1;fruit:3" +:+ ";" +:+ "fruit:5;x;floral:2"))
  = Ok [("nut", 1); ("fruit", 5); ("floral", 2)].
Proof.
  apply (parse_of_joined_cells "nut:1;fruit:3" "fruit:5;x;floral:2"
           [("nut", 1); ("fruit", 3)]).
  vm_compute. reflexivity.
Defined.

(** * More on [ensure_node] *)

Section EnsureNodeFacts.

Context {F : Type} `{PyFloat F}.

Lemma merge_prop_sets (a : gmap string (value F)) k v :
  unset (a !! k) = true → is_blank v = false →
  merge_prop a (k, v) !! k = Some v.
Proof.
  unfold merge_prop, unset. intros Ha Hv. rewrite Hv. cbn [negb andb].
  destruct (a !! k); simpl in Ha; rewrite ?Ha; by rewrite lookup_insert_eq.
Qed.

Lemma fold_merge_fills props (a : gmap string (value F)) k v :
  NoDup props.*1 → (k, v) ∈ props →
  unset (a !! k) = true → is_blank v = false →
  fold_left merge_prop props a !! k = Some v.
Proof.
  revert a. induction props as [|[k' v'] props IH]; intros a;
    [by intros _ ?%elem_of_nil|].
  cbn [fmap list_fmap fold_left].
  intros [Hk' Hnd]%NoDup_cons [[= <- <-]|Hin]%elem_of_cons Ha Hv.
  - apply fold_merge_kept; [|done]. by apply merge_prop_sets.
  - apply IH; [done..| |done].
    rewrite merge_prop_other; [done|]. simpl. intros ->.
    apply Hk'. apply list_elem_of_fmap. by exists (k, v).
Qed.

(** After the merge loop, every value of [props] that is not blank finds an
    attribute that is not blank. *)
Lemma fold_merge_saturates props (a : gmap string (value F)) k v :
  (k, v) ∈ props → is_blank v = false →
  ∃ old, fold_left merge_prop props a !! k = Some old ∧ is_blank old = false.
Proof.
  revert a. induction props as [|[k' v'] props IH]; intros a;
    [by intros ?%elem_of_nil|].
  cbn [fold_left]. intros [[= <- <-]|Hin]%elem_of_cons Hv; [|by apply IH].
  destruct (a !! k) as [old|] eqn:Ha.
  - destruct (is_blank old) eqn:Hold.
    + exists v. split; [|done]. apply fold_merge_kept; [|done].
      apply merge_prop_sets; [|done]. unfold unset. by rewrite Ha.
    + exists old. split; [|done]. apply fold_merge_kept; [|done].
      by apply merge_prop_kept.
  - exists v. split; [|done]. apply fold_merge_kept; [|done].
    apply merge_prop_sets; [|done]. unfold unset. by rewrite Ha.
Qed.

Lemma merge_prop_saturated (a : gmap string (value F)) k v :
  (is_blank v = false → ∃ old, a !! k = Some old ∧ is_blank old = false) →
  merge_prop a (k, v) = a.
Proof.
  unfold merge_prop. intros Hs. destruct (is_blank v); [done|].
  destruct Hs as (old & -> & ->); done.
Qed.

Lemma fold_merge_saturated props (a : gmap string (value F)) :
  (∀ k v, (k, v) ∈ props → is_blank v = false →
          ∃ old, a !! k = Some old ∧ is_blank old = false) →
  fold_left merge_prop props a = a.
Proof.
  induction props as [|[k v] props IH]; intros Hs; [done|].
  cbn [fold_left]. rewrite merge_prop_saturated.
  - apply IH. intros k' v' Hin. apply Hs. by constructor.
  - apply Hs. by constructor.
Qed.

Lemma last_value_NoDup_elem {V : Type} (l : list (string * V)) k v cur :
  NoDup l.*1 → (k, v) ∈ l → last_value l k cur = Some v.
Proof.
  intros Hnd Hin. rewrite last_value_dict by done.
  assert (dict_get k l = Some v) as ->; [|done].
  induction l as [|[k' v'] l IH]; [by apply elem_of_nil in Hin|].
  apply NoDup_cons in Hnd as [Hk' Hnd]. cbn [dict_get].
  apply elem_of_cons in Hin as [[= <- <-]|Hin].
  - by rewrite String.eqb_refl.
  - destruct (String.eqb_spec k' k) as [->|Hne]; [|by apply IH].
    exfalso. apply Hk'. apply list_elem_of_fmap. by exists (k, v).
Qed.

Lemma last_value_not_key {V : Type} (l : list (string * V)) k cur :
  k ∉ l.*1 → last_value l k cur = cur.
Proof.
  revert cur. induction l as [|[k' v'] l IH]; intros cur; [done|].
  cbn [fmap list_fmap last_value]. intros [Hne Hk]%not_elem_of_cons.
  rewrite IH by done. by rewrite (proj2 (String.eqb_neq k' k)).
Qed.

Lemma clashes_not_key params (props : dict (value F)) p :
  clashes params props = false → p ∈ params → p ∉ props.*1.
Proof.
  intros Hc Hp [[k v] [-> Hin]]%list_elem_of_fmap.
  by apply (proj1 (clashes_false _ _) Hc k v k Hin Hp).
Qed.

End EnsureNodeFacts.

(** X9. [ensure_node] fills what is not set yet: when the node exists and
    its attribute [k] is missing, [None] or the empty string, a call that
    passes a value for [k] that is neither [None] nor the empty string
    leaves the node with that value for [k]. *)
Theorem ensure_node_fills_unset {F : Type} `{PyFloat F} (G G' : MultiDiGraph F)
    (node_id label node_type : string) (props : dict (value F))
    (k : string) (v : value F) :
  ensure_node G node_id label node_type props = Ok G' →
  is_Some (nodes G !! node_id) →
  unset (node_attr G node_id k) = true →
  NoDup props.*1 → (k, v) ∈ props → is_blank v = false →
  node_attr G' node_id k = Some v.
Proof.
  unfold ensure_node, node_attr. intros HG [a Ha] Hunset Hnd Hin Hv.
  destruct (clashes _ props); [discriminate|].
  rewrite Ha in HG, Hunset. injection HG as <-. simpl.
  rewrite lookup_insert_eq. simpl. by apply fold_merge_fills.
Qed.

Lemma ensure_node_fills_unset_witness :
  node_attr Example.G1 "brewer:la-marzocco-linea" "filter_material"
    = Some (VStr "") ∧
  node_attr G1_paper "brewer:la-marzocco-linea" "filter_material"
    = Some (VStr "paper").
Proof.
  split; [vm_compute; reflexivity|].
  apply (ensure_node_fills_unset Example.G1 G1_paper "brewer:la-marzocco-linea"
           "La Marzocco Linea" "Brewer" [("filter_material", VStr "paper")]).
  - apply (ok_graph_of (ensure_node _ _ _ _ _)). vm_compute. reflexivity.
  - apply (node_attr_is_Some Example.G1 "brewer:la-marzocco-linea" "label"
             (VStr "La Marzocco Linea")).
    vm_compute. reflexivity.
  - vm_compute. reflexivity.
  - apply NoDup_singleton.
  - apply list_elem_of_In. left. reflexivity.
  - reflexivity.
Defined.

(** X10. [ensure_node] is idempotent: a call that has just been made can be
    made again and leaves the graph as it is. *)
Theorem ensure_node_idempotent {F : Type} `{PyFloat F} (G G' : MultiDiGraph F)
    (node_id label node_type : string) (props : dict (value F)) :
  ensure_node G node_id label node_type props = Ok G' →
  NoDup props.*1 →
  ensure_node G' node_id label node_type props = Ok G'.
Proof.
  unfold ensure_node. intros HG Hnd.
  destruct (clashes ["G"; "node_id"; "label"; "node_type"] props) eqn:Hc1;
    [discriminate|].
  assert (Hsat : ∃ a', nodes G' !! node_id = Some a' ∧
            ∀ k v, (k, v) ∈ props → is_blank v = false →
                   ∃ old, a' !! k = Some old ∧ is_blank old = false).
  { destruct (nodes G !! node_id) as [a|] eqn:Ha.
    - injection HG as <-. simpl. rewrite lookup_insert_eq.
      eexists. split; [done|]. intros k v. apply fold_merge_saturates.
    - destruct (clashes ["node_for_adding"; "label"; "type"] props) eqn:Hc2;
        [discriminate|].
      injection HG as <-. simpl. rewrite lookup_insert_eq.
      eexists. split; [done|]. intros k v Hin Hv. exists v. split; [|done].
      rewrite update_lookup.
      by apply last_value_NoDup_elem. }
  destruct Hsat as (a' & Ha' & Hsat). rewrite Ha'.
  rewrite (fold_merge_saturated props a' Hsat), insert_id by done.
  by destruct G'.
Qed.

Lemma ensure_node_idempotent_witness :
  ensure_node G1_paper "brewer:la-marzocco-linea" "La Marzocco Linea" "Brewer"
    [("filter_material", VStr "paper")] = Ok G1_paper.
Proof.
  apply (ensure_node_idempotent Example.G1).
  - apply (ok_graph_of (ensure_node _ _ _ _ _)). vm_compute. reflexivity.
  - apply NoDup_singleton.
Defined.

(** * The built graph is well formed *)

Section Phases.

Context {F : Type} `{PyFloat F}.

Lemma for_each_fmap {A B S : Type} (body : S → B → result S) (f : A → B) l s :
  for_each body (f <$> l) s = for_each (λ s x, body s (f x)) l s.
Proof.
  revert s. induction l as [|x l IH]; intros s; [done|].
  cbn [fmap list_fmap for_each]. destruct (body s (f x)); simpl; [apply IH|done].
Qed.

(** [process_row] is the cleaning of the row, then its calls of
    [ensure_node], then its calls of [add_edge]. *)
Lemma process_row_calls cols (G : MultiDiGraph F) r :
  process_row cols G r =
  (b ← read_row r;
   Gn ← for_each ensure_node_call (row_nodes b) G;
   for_each add_edge_call (row_edges cols r b) Gn).
Proof.
  unfold process_row. destruct (read_row r) as [b|e]; [|done].
  cbn [mbind result_bind]. unfold row_nodes, row_edges.
  rewrite for_each_app. cbn [for_each]. unfold ensure_node_call.
  cbn [fst snd].
  repeat (match goal with
          | |- context [mbind _ (ensure_node ?g ?a ?b ?c ?d)] =>
              destruct (ensure_node g a b c d); cbn [mbind result_bind];
              [|reflexivity]
          end).
  rewrite for_each_fmap. cbn [fst snd].
  match goal with
  | |- context [mbind _ (for_each ?f ?l ?g)] =>
      destruct (for_each f l g); cbn [mbind result_bind]; [|reflexivity]
  end.
  rewrite for_each_app. cbn [for_each]. unfold add_edge_call.
  cbn [fst snd].
  repeat (match goal with
          | |- context [mbind _ (add_edge ?g ?a ?b ?c ?d)] =>
              destruct (add_edge g a b c d); cbn [mbind result_bind];
              [|reflexivity]
          end).
  by rewrite for_each_fmap.
Qed.

End Phases.

(** Membership in a list that is written out. *)
Ltac solve_elem :=
  first [ apply list_elem_of_here
        | apply list_elem_of_further; solve_elem ].

Section WellFormed.

Context {F : Type} `{PyFloat F}.

Lemma well_formed_empty : well_formed (empty_graph (F:=F)).
Proof. split; intros *; simpl; by rewrite lookup_empty. Qed.

Lemma node_ok_kept (a a' : gmap string (value F)) :
  a' !! "label" = a !! "label" → a' !! "type" = a !! "type" →
  node_ok a → node_ok a'.
Proof. intros Hl Ht (l & t & ? & ? & ?). exists l, t. by rewrite Hl, Ht. Qed.

(** One call of [ensure_node]: the graph stays well formed, the node of the
    call is the only node that may be new, the edges are as before. *)
Lemma ensure_node_call_wf (G : MultiDiGraph F) c G' :
  well_formed G → c.1.2 ∈ node_types → clashes ["type"] c.2 = false →
  ensure_node_call G c = Ok G' →
  well_formed G' ∧
  (∀ n, is_Some (nodes G' !! n) ↔ is_Some (nodes G !! n) ∨ n = c.1.1.1) ∧
  edges G' = edges G.
Proof.
  destruct c as [[[node_id label] node_type] props].
  unfold ensure_node_call, ensure_node. cbn [fst snd].
  intros [Hn He] Hty Hc Hcall.
  destruct (clashes ["G"; "node_id"; "label"; "node_type"] props) eqn:Hc1;
    [discriminate|].
  assert (Hdom : ∀ (a : gmap string (value F)) n,
            is_Some (<[node_id := a]> (nodes G) !! n) ↔
            is_Some (nodes G !! n) ∨ n = node_id).
  { intros a n. destruct (decide (node_id = n)) as [->|Hne].
    - rewrite lookup_insert_eq. split; [by right|eauto].
    - rewrite lookup_insert_ne by done. split; [by left|].
      by intros [?| ->]. }
  assert (Hwf : ∀ a, node_ok a →
            well_formed {| nodes := <[node_id := a]> (nodes G);
                           edges := edges G |}).
  { intros a Ha. split; simpl.
    - intros n a' Hn'. destruct (decide (node_id = n)) as [->|Hne].
      + rewrite lookup_insert_eq in Hn'. by injection Hn' as <-.
      + rewrite lookup_insert_ne in Hn' by done. by eapply Hn.
    - intros u v k a' He'. destruct (He u v k a' He') as (Hu & Hv & Hk & Hkt).
      split_and!; [apply Hdom; by left..|done|done]. }
  destruct (nodes G !! node_id) as [a|] eqn:Ha.
  - injection Hcall as <-. split_and!; [|apply Hdom|done].
    apply Hwf. apply (node_ok_kept a); [..|by eapply Hn].
    + apply fold_merge_other. intros k v Hin.
      apply (proj1 (clashes_false _ _) Hc1 k v "label" Hin). solve_elem.
    + apply fold_merge_other. intros k v Hin.
      apply (proj1 (clashes_false _ _) Hc k v "type" Hin). solve_elem.
  - destruct (clashes ["node_for_adding"; "label"; "type"] props) eqn:Hc2;
      [discriminate|].
    injection Hcall as <-. unfold add_node. rewrite Ha.
    split_and!; [|apply Hdom|done].
    apply Hwf. exists label, node_type. rewrite !update_lookup.
    cbn [last_value]. rewrite !last_value_not_key.
    + done.
    + apply (clashes_not_key _ _ _ Hc2). solve_elem.
    + apply (clashes_not_key _ _ _ Hc2). solve_elem.
Qed.

Lemma ensure_node_calls_wf ns (G : MultiDiGraph F) G' :
  well_formed G →
  Forall (λ c : node_call F,
            c.1.2 ∈ node_types ∧ clashes ["type"] c.2 = false) ns →
  for_each ensure_node_call ns G = Ok G' →
  well_formed G' ∧
  (∀ n, is_Some (nodes G' !! n) ↔
        is_Some (nodes G !! n) ∨ n ∈ (λ c : node_call F, c.1.1.1) <$> ns) ∧
  edges G' = edges G.
Proof.
  revert G. induction ns as [|c ns IH]; intros G Hwf Hns; cbn [for_each].
  - intros [= <-]. split_and!; [done| |done].
    intros n. rewrite fmap_nil, elem_of_nil. tauto.
  - apply Forall_cons in Hns as [[Hty Hc] Hns].
    intros (G1 & H1 & H2)%bind_Ok_inv.
    destruct (ensure_node_call_wf G c G1 Hwf Hty Hc H1) as (Hwf1 & Hd1 & He1).
    destruct (IH G1 Hwf1 Hns H2) as (Hwf' & Hd' & He').
    split_and!; [done| |congruence].
    intros n. rewrite Hd', Hd1, fmap_cons, elem_of_cons. tauto.
Qed.

(** One call of [add_edge] between two nodes of the graph: the graph stays
    well formed, the nodes are as before, the edge of the call is the only
    edge that may be new. *)
Lemma add_edge_call_wf (G : MultiDiGraph F) c G' :
  well_formed G →
  is_Some (nodes G !! c.1.1.1) → is_Some (nodes G !! c.1.2) →
  c.1.1.2 ∈ edge_types →
  add_edge_call G c = Ok G' →
  well_formed G' ∧ nodes G' = nodes G ∧
  (∀ e, is_Some (edges G' !! e) ↔ is_Some (edges G !! e) ∨ e = triple c).
Proof.
  destruct c as [[[src rel] dst] props].
  unfold add_edge_call, add_edge, triple. cbn [fst snd].
  intros [Hn He] [as_ Hs] [ad Hd] Hrel Hcall.
  destruct (clashes ["G"; "src"; "rel"; "dst"] props); [discriminate|].
  destruct (clashes ["u_for_edge"; "v_for_edge"; "key"; "type"] props) eqn:Hc;
    [discriminate|].
  injection Hcall as <-.
  assert (Hnodes : nodes (nx_add_edge G src dst rel (("type", VStr rel) :: props))
                   = nodes G).
  { unfold nx_add_edge. rewrite Hs. rewrite Hd. done. }
  rewrite Hnodes, nx_add_edge_edges. split_and!; [|done|].
  - split; [by rewrite Hnodes|]. rewrite Hnodes, nx_add_edge_edges.
    intros u v k a Ha. destruct (decide ((src, dst, rel) = (u, v, k))) as [[= <- <- <-]|Hne].
    + rewrite lookup_insert_eq in Ha. injection Ha as <-.
      split_and!; [eauto..| |done].
      rewrite update_lookup. cbn [last_value].
      rewrite last_value_not_key; [by rewrite lookup_insert_eq|].
      apply (clashes_not_key _ _ _ Hc). solve_elem.
    + rewrite lookup_insert_ne in Ha by done. by eapply He.
  - intros e. destruct (decide ((src, dst, rel) = e)) as [<-|Hne].
    + rewrite lookup_insert_eq. split; [by right|eauto].
    + rewrite lookup_insert_ne by done. split; [by left|by intros [?| ->]].
Qed.

Lemma add_edge_calls_wf es (G : MultiDiGraph F) G' :
  well_formed G →
  Forall (λ c : emission F,
            is_Some (nodes G !! c.1.1.1) ∧ is_Some (nodes G !! c.1.2) ∧
            c.1.1.2 ∈ edge_types) es →
  for_each add_edge_call es G = Ok G' →
  well_formed G' ∧ nodes G' = nodes G ∧
  (∀ e, is_Some (edges G' !! e) ↔ is_Some (edges G !! e) ∨ e ∈ triple <$> es).
Proof.
  revert G. induction es as [|c es IH]; intros G Hwf Hes; cbn [for_each].
  - intros [= <-]. split_and!; [done..|].
    intros e. rewrite fmap_nil, elem_of_nil. tauto.
  - apply Forall_cons in Hes as [(Hs & Hd & Hrel) Hes].
    intros (G1 & H1 & H2)%bind_Ok_inv.
    destruct (add_edge_call_wf G c G1 Hwf Hs Hd Hrel H1) as (Hwf1 & Hn1 & He1).
    destruct (IH G1 Hwf1) as (Hwf' & Hn' & He'); [|done|].
    { by rewrite Hn1. }
    split_and!; [done|congruence|].
    intros e. rewrite He', He1, fmap_cons, elem_of_cons. tauto.
Qed.

Lemma row_nodes_types (b : brew F) :
  Forall (λ c : node_call F,
            c.1.2 ∈ node_types ∧ clashes ["type"] c.2 = false) (row_nodes b).
Proof.
  unfold row_nodes. apply Forall_app. split.
  - repeat (apply Forall_cons; split; [split; [solve_elem|reflexivity]|]).
    apply Forall_nil_2.
  - apply Forall_fmap, Forall_forall. intros ni _. split; [solve_elem|done].
Qed.

Lemma row_edges_ends cols r (b : brew F) :
  Forall (λ c : emission F,
            c.1.1.1 ∈ row_node_ids b ∧ c.1.2 ∈ row_node_ids b ∧
            c.1.1.2 ∈ edge_types) (row_edges cols r b).
Proof.
  unfold row_edges, row_node_ids, row_nodes. rewrite fmap_app.
  apply Forall_app. split.
  - repeat (apply Forall_cons; split;
            [split_and!; [apply elem_of_app; left; cbn [fmap list_fmap fst];
                          solve_elem..|solve_elem]|]).
    apply Forall_nil_2.
  - apply Forall_fmap, Forall_forall. intros ni Hni. cbn [fst snd].
    split_and!; [|apply elem_of_app; right|solve_elem].
    + apply elem_of_app. left. cbn [fmap list_fmap fst]. solve_elem.
    + rewrite <- list_fmap_compose. apply list_elem_of_fmap. by exists ni.
Qed.

(** A row keeps the graph well formed; its node identifiers are the only
    new nodes and its triples the only new edges. *)
Lemma process_row_wf cols (G : MultiDiGraph F) r G' b :
  well_formed G → process_row cols G r = Ok G' → read_row r = Ok b →
  well_formed G' ∧
  (∀ n, is_Some (nodes G' !! n) ↔
        is_Some (nodes G !! n) ∨ n ∈ row_node_ids b) ∧
  (∀ e, is_Some (edges G' !! e) ↔
        is_Some (edges G !! e) ∨ e ∈ triple <$> row_edges cols r b).
Proof.
  intros Hwf Hrow Hb. rewrite process_row_calls, Hb in Hrow.
  cbn [mbind result_bind] in Hrow.
  apply bind_Ok_inv in Hrow as (Gn & Hnodes & Hedges).
  destruct (ensure_node_calls_wf _ _ _ Hwf (row_nodes_types b) Hnodes)
    as (Hwfn & Hdn & Hen).
  destruct (add_edge_calls_wf (row_edges cols r b) Gn G' Hwfn)
    as (Hwf' & Hn' & He'); [|done|].
  { eapply Forall_impl; [apply row_edges_ends|].
    intros c (Hs & Hd & Hrel). split_and!; [apply Hdn; by right..|done]. }
  split_and!; [done| |].
  - intros n. by rewrite Hn', Hdn.
  - intros e. by rewrite He', Hen.
Qed.

Lemma rows_wf cols rws (G : MultiDiGraph F) G' :
  well_formed G → for_each (process_row cols) rws G = Ok G' →
  well_formed G' ∧
  (∀ n, is_Some (nodes G' !! n) ↔
        is_Some (nodes G !! n) ∨
        ∃ r, r ∈ rws ∧ n ∈ row_node_ids (cleaned r)) ∧
  (∀ e, is_Some (edges G' !! e) ↔
        is_Some (edges G !! e) ∨
        ∃ r, r ∈ rws ∧ e ∈ triple <$> row_edges cols r (cleaned r)).
Proof.
  revert G. induction rws as [|r rws IH]; intros G Hwf; cbn [for_each].
  - intros [= <-]. split_and!; [done|..]; intros x;
      (split; [by left|]); by intros [?|(r & ?%elem_of_nil & _)].
  - intros (G1 & H1 & H2)%bind_Ok_inv.
    assert (Hb : read_row r = Ok (cleaned r)).
    { apply ok_cleaned. unfold process_row in H1.
      by destruct (read_row r). }
    destruct (process_row_wf _ _ _ _ _ Hwf H1 Hb) as (Hwf1 & Hn1 & He1).
    destruct (IH G1 Hwf1 H2) as (Hwf' & Hn' & He').
    split_and!; [done|..].
    + intros n. rewrite Hn', Hn1. split.
      * intros [[?|?]|(r' & ? & ?)]; [by left|right; exists r|right; exists r'];
          (split; [|done]); [by left|by right].
      * intros [?|(r' & [-> |?]%elem_of_cons & ?)];
          [by left; left|by left; right|right; by exists r'].
    + intros e. rewrite He', He1. split.
      * intros [[?|?]|(r' & ? & ?)]; [by left|right; exists r|right; exists r'];
          (split; [|done]); [by left|by right].
      * intros [?|(r' & [-> |?]%elem_of_cons & ?)];
          [by left; left|by left; right|right; by exists r'].
Qed.

Lemma build_wf (df : DataFrame F) G :
  build_graph_from_brews df = Ok G →
  well_formed G ∧
  (∀ n, is_Some (nodes G !! n) ↔
        ∃ r, r ∈ rows df ∧ n ∈ row_node_ids (cleaned r)) ∧
  (∀ e, is_Some (edges G !! e) ↔
        ∃ r, r ∈ rows df ∧ e ∈ triple <$> row_edges (columns df) r (cleaned r)).
Proof.
  unfold build_graph_from_brews.
  destruct (missing_columns (columns df)); [|discriminate].
  intros Hrows.
  destruct (rows_wf _ _ _ _ well_formed_empty Hrows) as (Hwf & Hn & He).
  split_and!; [done|..]; intros x; rewrite ?Hn, ?He; simpl;
    rewrite lookup_empty; (split; [|by right]); by intros [[? [=]]|?].
Qed.

End WellFormed.

(** * What every built graph satisfies *)

Lemma edge_attr_is_Some {F : Type} (G : MultiDiGraph F) e k v :
  edge_attr G e k = Some v → is_Some (edges G !! e).
Proof. unfold edge_attr. destruct (edges G !! e); [eauto|discriminate]. Qed.

(** X11. Every node of a built graph has a string label and a type, and the
    type is one of the eight node types of the assembler. *)
Theorem built_nodes_have_label_and_type {F : Type} `{PyFloat F}
    (df : DataFrame F) (G : MultiDiGraph F) (n : string) :
  build_graph_from_brews df = Ok G → is_Some (nodes G !! n) →
  ∃ l t, node_attr G n "label" = Some (VStr l) ∧
         node_attr G n "type" = Some (VStr t) ∧ t ∈ node_types.
Proof.
  intros Hb [a Ha]. destruct (build_wf df G Hb) as ([Hn _] & _).
  destruct (Hn n a Ha) as (l & t & Hl & Ht & Hty).
  exists l, t. unfold node_attr. rewrite Ha. by split_and!.
Qed.

Lemma built_nodes_have_label_and_type_witness :
  ∃ l t, node_attr Example.G12 "note:floral" "label" = Some (VStr l) ∧
         node_attr Example.G12 "note:floral" "type" = Some (VStr t) ∧
         t ∈ node_types.
Proof.
  apply (built_nodes_have_label_and_type
           {| columns := Example.cols;
              rows := [Example.row1] ++ [Example.row2] |}).
  - apply (ok_graph_of (build_graph_from_brews _)). vm_compute. reflexivity.
  - apply (node_attr_is_Some Example.G12 "note:floral" "label" (VStr "floral")).
    vm_compute. reflexivity.
Defined.

(** X12. No edge of a built graph dangles, and every edge says what it is:
    both end points are nodes of the graph, the [type] attribute of the edge
    is its key, and the key is one of the seven relationship types. *)
Theorem built_edges_join_nodes {F : Type} `{PyFloat F}
    (df : DataFrame F) (G : MultiDiGraph F) (u v k : string) :
  build_graph_from_brews df = Ok G → is_Some (edges G !! (u, v, k)) →
  is_Some (nodes G !! u) ∧ is_Some (nodes G !! v) ∧
  edge_attr G (u, v, k) "type" = Some (VStr k) ∧ k ∈ edge_types.
Proof.
  intros Hb [a Ha]. destruct (build_wf df G Hb) as ([_ He] & _).
  destruct (He u v k a Ha) as (Hu & Hv & Hk & Hkt).
  unfold edge_attr. rewrite Ha. by split_and!.
Qed.

Lemma built_edges_join_nodes_witness :
  is_Some (nodes Example.G12 !! "brew:b001") ∧
  is_Some (nodes Example.G12 !! "brewer:la-marzocco-linea") ∧
  edge_attr Example.G12 Example.brewed_with "type" = Some (VStr "BREWED_WITH") ∧
  "BREWED_WITH" ∈ edge_types.
Proof.
  apply (built_edges_join_nodes
           {| columns := Example.cols;
              rows := [Example.row1] ++ [Example.row2] |}).
  - apply (ok_graph_of (build_graph_from_brews _)). vm_compute. reflexivity.
  - apply (edge_attr_is_Some Example.G12 Example.brewed_with "brew_method"
             (VStr "ristretto")).
    vm_compute. reflexivity.
Defined.

(** X13. A built graph holds the nodes and the edges of its rows and no
    other: a node identifier is in the graph exactly when some row passes it
    to [ensure_node], and a triple (source, destination, key) is an edge
    exactly when some row passes it to [add_edge].  In particular [add_edge]
    never creates a node. *)
Theorem built_graph_is_union_of_rows {F : Type} `{PyFloat F}
    (df : DataFrame F) (G : MultiDiGraph F) :
  build_graph_from_brews df = Ok G →
  (∀ n, is_Some (nodes G !! n) ↔
        ∃ r, r ∈ rows df ∧ n ∈ row_node_ids (cleaned r)) ∧
  (∀ e, is_Some (edges G !! e) ↔
        ∃ r, r ∈ rows df ∧
             e ∈ triple <$> row_edges (columns df) r (cleaned r)).
Proof. intros Hb. by destruct (build_wf df G Hb) as (_ & Hn & He). Qed.

Lemma built_graph_is_union_of_rows_witness :
  (∀ n, is_Some (nodes Example.G12 !! n) ↔
        ∃ r, r ∈ [Example.row1] ++ [Example.row2] ∧
             n ∈ row_node_ids (cleaned r)) ∧
  (∀ e, is_Some (edges Example.G12 !! e) ↔
        ∃ r, r ∈ [Example.row1] ++ [Example.row2] ∧
             e ∈ triple <$> row_edges Example.cols r (cleaned r)).
Proof.
  apply (built_graph_is_union_of_rows
           {| columns := Example.cols;
              rows := [Example.row1] ++ [Example.row2] |}).
  apply (ok_graph_of (build_graph_from_brews _)). vm_compute. reflexivity.
Defined.

(** * Errors are local to a row *)

Section Success.

Context {F : Type} `{PyFloat F}.

Lemma ensure_node_calls_ok ns (G : MultiDiGraph F) :
  Forall (λ c : node_call F,
            clashes ["G"; "node_id"; "label"; "node_type"] c.2 = false ∧
            clashes ["node_for_adding"; "label"; "type"] c.2 = false) ns →
  is_ok (for_each ensure_node_call ns G) = true.
Proof.
  revert G. induction ns as [|[[[id l] t] p] ns IH]; intros G Hns; [done|].
  apply Forall_cons in Hns as [[H1 H2] Hns]. cbn [fst snd] in H1, H2.
  cbn [for_each].
  assert (∃ G1, ensure_node_call G (id, l, t, p) = Ok G1) as [G1 ->].
  { unfold ensure_node_call, ensure_node. cbn [fst snd]. rewrite H1.
    destruct (nodes G !! id); [|rewrite H2]; eauto. }
  by apply IH.
Qed.

Lemma row_nodes_no_clash (b : brew F) :
  Forall (λ c : node_call F,
            clashes ["G"; "node_id"; "label"; "node_type"] c.2 = false ∧
            clashes ["node_for_adding"; "label"; "type"] c.2 = false)
    (row_nodes b).
Proof.
  unfold row_nodes. apply Forall_app. split.
  - repeat (apply Forall_cons; split; [split; reflexivity|]).
    apply Forall_nil_2.
  - apply Forall_fmap, Forall_forall. intros ni _. by split.
Qed.

Lemma add_edge_calls_ok_indep es (G G' : MultiDiGraph F) :
  is_ok (for_each add_edge_call es G) = is_ok (for_each add_edge_call es G').
Proof.
  revert G G'. induction es as [|[[[s rel] d] p] es IH]; intros G G'; [done|].
  cbn [for_each].
  assert (Hc : ∀ G0 : MultiDiGraph F,
            add_edge_call G0 (s, rel, d, p) =
            if clashes ["G"; "src"; "rel"; "dst"] p ||
               clashes ["u_for_edge"; "v_for_edge"; "key"; "type"] p
            then add_edge_call G0 (s, rel, d, p)
            else Ok (nx_add_edge G0 s d rel (("type", VStr rel) :: p))).
  { intros G0. unfold add_edge_call, add_edge. cbn [fst snd].
    by repeat destruct (clashes _ p). }
  destruct (clashes _ p || clashes _ p) eqn:Hp.
  - unfold add_edge_call, add_edge. cbn [fst snd].
    apply orb_true_iff in Hp as [-> | Hp]; [done|].
    rewrite Hp. by destruct (clashes _ p).
  - rewrite (Hc G), (Hc G'). apply IH.
Qed.

(** Whether a row raises does not depend on the graph built so far. *)
Lemma process_row_ok_indep cols (G G' : MultiDiGraph F) r :
  is_ok (process_row cols G r) = is_ok (process_row cols G' r).
Proof.
  rewrite !process_row_calls. destruct (read_row r) as [b|]; [|done].
  cbn [mbind result_bind].
  pose proof (ensure_node_calls_ok _ G (row_nodes_no_clash b)) as Hn.
  pose proof (ensure_node_calls_ok _ G' (row_nodes_no_clash b)) as Hn'.
  destruct (for_each ensure_node_call (row_nodes b) G) as [Gn|]; [|done].
  destruct (for_each ensure_node_call (row_nodes b) G') as [Gn'|]; [|done].
  apply add_edge_calls_ok_indep.
Qed.

Lemma rows_ok cols rws (G : MultiDiGraph F) :
  is_ok (for_each (process_row cols) rws G) =
  forallb (λ r, is_ok (process_row cols empty_graph r)) rws.
Proof.
  revert G. induction rws as [|r rws IH]; intros G; [done|].
  cbn [for_each forallb].
  rewrite <- (process_row_ok_indep cols G empty_graph r).
  destruct (process_row cols G r) as [G1|]; [apply IH|done].
Qed.

Lemma rows_ok_perm cols rws1 rws2 (G : MultiDiGraph F) :
  rws1 ≡ₚ rws2 →
  is_ok (for_each (process_row cols) rws1 G) = true →
  is_ok (for_each (process_row cols) rws2 G) = true.
Proof.
  rewrite !rows_ok, !forallb_forall. intros Hp Hall r Hr.
  apply Hall. apply list_elem_of_In. rewrite Hp. by apply list_elem_of_In.
Qed.

End Success.

(** X14. The order of the rows decides neither whether the build succeeds
    nor which nodes and edges the graph has: a table whose rows are those of
    a table that builds, in another order, builds too, and the two graphs
    have the same node identifiers and the same edge triples.  (The
    attributes can differ: nodes keep the first value and edges the last.) *)
Theorem build_ignores_row_order {F : Type} `{PyFloat F}
    (df1 df2 : DataFrame F) (G1 : MultiDiGraph F) :
  columns df1 = columns df2 → rows df1 ≡ₚ rows df2 →
  build_graph_from_brews df1 = Ok G1 →
  ∃ G2, build_graph_from_brews df2 = Ok G2 ∧
        (∀ n, is_Some (nodes G1 !! n) ↔ is_Some (nodes G2 !! n)) ∧
        (∀ e, is_Some (edges G1 !! e) ↔ is_Some (edges G2 !! e)).
Proof.
  intros Hcols Hperm H1.
  assert (H2 : is_ok (build_graph_from_brews df2) = true).
  { revert H1. unfold build_graph_from_brews. rewrite <- Hcols.
    destruct (missing_columns (columns df1)); [|discriminate].
    intros H1. apply (rows_ok_perm _ (rows df1)); [done|]. by rewrite H1. }
  apply ok_graph_of in H2. eexists. split; [exact H2|].
  destruct (build_wf _ _ H1) as (_ & Hn1 & He1).
  destruct (build_wf _ _ H2) as (_ & Hn2 & He2).
  split.
  - intros n. rewrite Hn1, Hn2. by setoid_rewrite Hperm.
  - intros e. rewrite He1, He2, Hcols. by setoid_rewrite Hperm.
Qed.

Lemma build_ignores_row_order_witness :
  ∃ G2, build_graph_from_brews MoreExamples.df21 = Ok G2 ∧
        (∀ n, is_Some (nodes Example.G12 !! n) ↔ is_Some (nodes G2 !! n)) ∧
        (∀ e, is_Some (edges Example.G12 !! e) ↔ is_Some (edges G2 !! e)).
Proof.
  apply (build_ignores_row_order MoreExamples.df12 MoreExamples.df21).
  - reflexivity.
  - apply Permutation_swap.
  - apply (ok_graph_of (build_graph_from_brews _)). vm_compute. reflexivity.
Defined.

(** * A dynamic column named as a parameter *)

Section ReservedColumns.

Context {F : Type} `{PyFloat F}.

Lemma reserved_not_core c : c ∈ reserved → str_in c core_columns = false.
Proof.
  intros Hc. unfold reserved in Hc.
  repeat (apply elem_of_cons in Hc as [->|Hc]; [reflexivity|]).
  by apply elem_of_nil in Hc.
Qed.

Lemma add_edge_reserved (G : MultiDiGraph F) src rel dst props c :
  c ∈ props.*1 → c ∈ reserved → ∃ e, add_edge G src rel dst props = Raise e.
Proof.
  intros [[k v] [-> Hin]]%list_elem_of_fmap Hres. unfold add_edge.
  destruct (clashes ["G"; "src"; "rel"; "dst"] props) eqn:H1; [eauto|].
  destruct (clashes ["u_for_edge"; "v_for_edge"; "key"; "type"] props) eqn:H2;
    [eauto|].
  exfalso. cbn [fst] in Hres. unfold reserved in Hres.
  pose proof (proj1 (clashes_false _ _) H1 k v k Hin) as N1.
  pose proof (proj1 (clashes_false _ _) H2 k v k Hin) as N2.
  repeat (apply elem_of_cons in Hres as [->|Hres];
          [first [apply N1; [solve_elem|done] | apply N2; [solve_elem|done]]|]).
  by apply elem_of_nil in Hres.
Qed.

Lemma method_params_key cols (r : gmap string (value F)) m c :
  c ∈ cols → str_in c core_columns = false → present (get r c VNone) = true →
  c ∈ (method_params cols r m).*1.
Proof.
  intros Hc Hdyn Hp.
  destruct (decide (c ∈ (method_params cols r m).*1)) as [|Hn]; [done|].
  apply dict_get_None in Hn. rewrite method_params_get in Hn by done.
  by rewrite (proj2 (str_in_elem_of c cols) Hc), Hp in Hn.
Qed.

Lemma process_row_reserved cols (G : MultiDiGraph F) r c :
  c ∈ cols → c ∈ reserved → present (get r c VNone) = true →
  ∃ e, process_row cols G r = Raise e.
Proof.
  intros Hc Hres Hp. rewrite process_row_calls.
  destruct (read_row r) as [b|e]; [|by exists e]. cbn [mbind result_bind].
  destruct (for_each ensure_node_call (row_nodes b) G) as [Gn|e];
    [|by exists e].
  apply (for_each_raises _ _
           (brew_session_id b, "BREWED_WITH", brewer_id b,
            method_params cols r (brew_method b))).
  - unfold row_edges. apply elem_of_app. left. solve_elem.
  - intros G0. unfold add_edge_call. cbn [fst snd].
    apply (add_edge_reserved _ _ _ _ _ c); [|done].
    apply method_params_key; [done|by apply reserved_not_core|done].
Qed.

End ReservedColumns.

(** X15. A dynamic column cannot be named as a parameter of [add_edge] or of
    the call it makes ([G], [src], [rel], [dst], [u_for_edge], [v_for_edge],
    [key], [type]): as soon as one row has a present cell in such a column,
    the build raises and gives no graph.  A column named [type] with a value
    is enough. *)
Theorem reserved_column_aborts_build {F : Type} `{PyFloat F}
    (df : DataFrame F) (r : gmap string (value F)) (c : string) :
  r ∈ rows df → c ∈ columns df → c ∈ reserved →
  present (get r c VNone) = true →
  ∃ e, build_graph_from_brews df = Raise e.
Proof.
  intros Hr Hc Hres Hp. unfold build_graph_from_brews.
  destruct (missing_columns (columns df)); [|by eexists].
  apply (for_each_raises _ _ r); [done|].
  intros G. by apply (process_row_reserved _ _ _ c).
Qed.

Lemma reserved_column_aborts_build_witness :
  ∃ e, build_graph_from_brews MoreExamples.df_type_column = Raise e.
Proof.
  apply (reserved_column_aborts_build MoreExamples.df_type_column
           (<["type" := VStr "V60"]> Example.row1) "type").
  - apply list_elem_of_here.
  - apply elem_of_app. right. apply list_elem_of_here.
  - unfold reserved. solve_elem.
  - vm_compute. reflexivity.
Defined.

(** * Two notes of one cell with the same slug *)

Section NoteEdges.

Context {F : Type} `{PyFloat F}.

Lemma note_id_inj n1 n2 : note_id n1 = note_id n2 → slugify n1 = slugify n2.
Proof.
  unfold note_id. rewrite !string_app_cons, !string_app_nil_l.
  intros Heq. by injection Heq.
Qed.

Lemma last_value_Some_any {V : Type} (l : dict V) k cur v :
  last_value l k None = Some v → last_value l k cur = Some v.
Proof.
  revert cur. induction l as [|[k' v'] l IH]; intros cur; [done|].
  cbn [last_value]. destruct (String.eqb k' k); [done|apply IH].
Qed.

Lemma replay_notes (nm : dict Z) (ev n : string) (cur : option (value F)) :
  replay ((λ ni : string * Z,
             (ev, "HAS_NOTE", note_id ni.1, [("intensity", VInt ni.2)])) <$> nm)
    (ev, note_id n, "HAS_NOTE") "intensity" cur =
  last_value ((λ ni : string * Z, (slugify ni.1, VInt ni.2)) <$> nm)
    (slugify n) cur.
Proof.
  revert cur. induction nm as [|[n' i] nm IH]; intros cur; [done|].
  rewrite !fmap_cons. cbn [fst snd last_value].
  destruct (String.eqb_spec (slugify n') (slugify n)) as [Heq|Hne].
  - assert (Hid : note_id n' = note_id n) by (unfold note_id; by rewrite Heq).
    rewrite Hid. etrans; [apply replay_cons_same|]. apply IH.
  - cbn [replay]. rewrite decide_False; [apply IH|].
    intros [= Hid]. by apply Hne, eq_sym, note_id_inj.
Qed.

End NoteEdges.

(** X16. When the notes cell of a row names one flavour several times in
    spellings that share a slug (as in "Fruit:3;fruit:5"), the HAS_NOTE edge
    from the evaluation of the row to the node of that slug carries the
    intensity of the last of these notes.  Stated for the last row of a table
    that builds. *)
Theorem has_note_keeps_last_intensity {F : Type} `{PyFloat F}
    (cols : list string) (rows1 : list (gmap string (value F)))
    (r : gmap string (value F)) (G : MultiDiGraph F) (n : string) (i : Z) :
  build_graph_from_brews {| columns := cols; rows := rows1 ++ [r] |} = Ok G →
  last_value ((λ ni : string * Z, (slugify ni.1, VInt (F:=F) ni.2))
                <$> note_map (cleaned r)) (slugify n) None = Some (VInt i) →
  edge_attr G (eval_id (cleaned r), note_id n, "HAS_NOTE") "intensity"
  = Some (VInt i).
Proof.
  intros Hb Hlast.
  assert (∃ G1, process_row cols G1 r = Ok G) as [G1 Hrow].
  { revert Hb. unfold build_graph_from_brews. cbn [columns rows].
    destruct (missing_columns cols); [|discriminate].
    rewrite for_each_app. intros (G1 & _ & Hr)%bind_Ok_inv. exists G1.
    cbn [for_each] in Hr. by destruct (process_row cols G1 r). }
  assert (Hc : read_row r = Ok (cleaned r)).
  { apply ok_cleaned. unfold process_row in Hrow. by destruct (read_row r). }
  rewrite (process_row_replay _ _ _ _ _ _ _ Hrow Hc).
  unfold row_edges. etrans; [apply replay_app|].
  rewrite replay_notes.
  by apply last_value_Some_any.
Qed.

Lemma has_note_keeps_last_intensity_witness :
  note_map (cleaned MoreExamples.row_two_fruits)
  = [("Fruit", 3%Z); ("fruit", 5%Z)] ∧
  edge_attr MoreExamples.G_two_fruits
    (eval_id (cleaned MoreExamples.row_two_fruits), note_id "Fruit", "HAS_NOTE")
    "intensity" = Some (VInt 5).
Proof.
  split; [vm_compute; reflexivity|].
  apply (has_note_keeps_last_intensity Example.cols []
           MoreExamples.row_two_fruits MoreExamples.G_two_fruits "Fruit" 5).
  - apply (ok_graph_of (build_graph_from_brews _)). vm_compute. reflexivity.
  - vm_compute. reflexivity.
Defined.

(** * The export of a built graph *)

(** X17. On a graph that the build returns, the export never falls back on
    a default: the label of a node is its stored label and never its
    identifier, its colour is the entry of [type_to_color] for its type,
    which is one of the eight node types (so neither the fallback colour nor
    the entry for GrindSetting is ever used), and the label of an edge is
    its key. *)
Theorem export_uses_no_fallback {F : Type} `{PyFloat F}
    (df : DataFrame F) (G : MultiDiGraph F) :
  build_graph_from_brews df = Ok G →
  (∀ n a, nodes G !! n = Some a →
     (∃ l, node_label n a = VStr l ∧ a !! "label" = Some (VStr l)) ∧
     (∃ t, a !! "type" = Some (VStr t) ∧ t ∈ node_types ∧
           dict_get t type_to_color = Some (node_color a))) ∧
  (∀ u v k a, edges G !! (u, v, k) = Some a →
     edge_label k a = VStr k ∧ k ∈ edge_types).
Proof.
  intros Hb. destruct (build_wf df G Hb) as ([Hn He] & _). split.
  - intros n a Ha. destruct (Hn n a Ha) as (l & t & Hl & Ht & Hty). split.
    + exists l. unfold node_label, attrs_get. by rewrite Hl.
    + exists t. split_and!; [done..|].
      unfold node_color, attrs_get. rewrite Ht. cbn [default color_of].
      unfold node_types in Hty.
      repeat (apply elem_of_cons in Hty as [->|Hty]; [reflexivity|]).
      by apply elem_of_nil in Hty.
  - intros u v k a Ha. destruct (He u v k a Ha) as (_ & _ & Hk & Hkt).
    unfold edge_label, attrs_get. by rewrite Hk.
Qed.

Lemma export_uses_no_fallback_witness :
  (∀ n a, nodes Example.G12 !! n = Some a →
     (∃ l, node_label n a = VStr l ∧ a !! "label" = Some (VStr l)) ∧
     (∃ t, a !! "type" = Some (VStr t) ∧ t ∈ node_types ∧
           dict_get t type_to_color = Some (node_color a))) ∧
  (∀ u v k a, edges Example.G12 !! (u, v, k) = Some a →
     edge_label k a = VStr k ∧ k ∈ edge_types).
Proof.
  apply (export_uses_no_fallback
           {| columns := Example.cols;
              rows := [Example.row1] ++ [Example.row2] |}).
  apply (ok_graph_of (build_graph_from_brews _)). vm_compute. reflexivity.
Defined.

(** * The shape of the nodes of a built graph *)

Section NodeSchema.

Context {F : Type} `{PyFloat F}.

Lemma dict_get_kinds (props : dict (value F)) k :
  dict_get k (kinds props) = kind_of <$> dict_get k props.
Proof.
  induction props as [|[k' v'] props IH]; [done|].
  unfold kinds in *. rewrite fmap_cons. cbn [dict_get fst snd].
  by destruct (String.eqb k' k).
Qed.

Lemma dict_get_elem {V : Type} (d : dict V) k v :
  NoDup d.*1 → (k, v) ∈ d → dict_get k d = Some v.
Proof.
  induction d as [|[k' v'] d IH]; [by intros _ ?%elem_of_nil|].
  rewrite fmap_cons. cbn [fst dict_get].
  intros [Hk' Hd]%NoDup_cons [[= <- <-]|Hin]%elem_of_cons.
  - by rewrite String.eqb_refl.
  - destruct (String.eqb_spec k' k) as [->|_]; [|by apply IH].
    destruct Hk'. apply list_elem_of_fmap. by exists (k, v).
Qed.

Lemma fold_merge_cases props (a : gmap string (value F)) k :
  fold_left merge_prop props a !! k = a !! k ∨
  ∃ v, (k, v) ∈ props ∧ fold_left merge_prop props a !! k = Some v.
Proof.
  revert a. induction props as [|[k0 v0] props IH]; intros a; [by left|].
  cbn [fold_left].
  destruct (IH (merge_prop a (k0, v0))) as [Heq|(v & Hin & Heq)].
  - rewrite Heq. unfold merge_prop. destruct (negb _ && _); [|by left].
    destruct (decide (k0 = k)) as [->|Hne].
    + right. exists v0. rewrite lookup_insert_eq. split; [|done].
      apply elem_of_cons. by left.
    + left. by rewrite lookup_insert_ne.
  - right. exists v. split; [|done]. apply elem_of_cons. by right.
Qed.

Lemma ensure_node_call_schema (G : MultiDiGraph F) c G' :
  nodes_schema_ok G → call_schema_ok c →
  ensure_node_call G c = Ok G' → nodes_schema_ok G'.
Proof.
  destruct c as [[[node_id label] node_type] props].
  unfold ensure_node_call, ensure_node, call_schema_ok. cbn [fst snd].
  intros HG (Hid & Hks & Hnd & Hc) Hcall.
  destruct (clashes ["G"; "node_id"; "label"; "node_type"] props) eqn:Hc1;
    [discriminate|].
  assert (Hins : ∀ a', node_schema_ok node_id a' →
            nodes_schema_ok {| nodes := <[node_id := a']> (nodes G);
                               edges := edges G |}).
  { intros a' Ha' n a Hn. cbn [nodes] in Hn.
    destruct (decide (node_id = n)) as [<-|Hne].
    - rewrite lookup_insert_eq in Hn. by injection Hn as <-.
    - rewrite lookup_insert_ne in Hn by done. by apply HG. }
  destruct (nodes G !! node_id) as [a|] eqn:Ha.
  - injection Hcall as <-. apply Hins.
    destruct (HG node_id a Ha) as (t0 & ks0 & Hid0 & Hks0 & Hty & Hk).
    rewrite Hid in Hid0. injection Hid0 as <-.
    rewrite Hks in Hks0. injection Hks0 as <-.
    exists node_type, (kinds props). split_and!; [done..| |].
    + rewrite <- Hty. apply fold_merge_other. intros k v Hin.
      apply (proj1 (clashes_false _ _) Hc k v "type" Hin). solve_elem.
    + intros k Hl Ht.
      destruct (fold_merge_cases props a k) as [->|(v & Hin & ->)];
        [by apply Hk|].
      by rewrite dict_get_kinds, (dict_get_elem props k v).
  - destruct (clashes ["node_for_adding"; "label"; "type"] props) eqn:Hc2;
      [discriminate|].
    injection Hcall as <-. unfold add_node. rewrite Ha. apply Hins.
    exists node_type, (kinds props). split_and!; [done..| |].
    + rewrite update_lookup. cbn [last_value]. rewrite !last_value_not_key.
      * done.
      * apply (clashes_not_key _ _ _ Hc2). solve_elem.
    + intros k Hl Ht. rewrite update_lookup. cbn [last_value default].
      rewrite (proj2 (String.eqb_neq "label" k)) by done.
      rewrite (proj2 (String.eqb_neq "type" k)) by done.
      rewrite last_value_dict, lookup_empty, dict_get_kinds by done.
      by destruct (dict_get k props).
Qed.

Lemma ensure_node_calls_schema ns (G : MultiDiGraph F) G' :
  nodes_schema_ok G → Forall call_schema_ok ns →
  for_each ensure_node_call ns G = Ok G' → nodes_schema_ok G'.
Proof.
  revert G. induction ns as [|c ns IH]; intros G HG Hns; cbn [for_each].
  - by intros [= <-].
  - apply Forall_cons in Hns as [Hc Hns].
    intros (G1 & H1 & H2)%bind_Ok_inv.
    apply (IH G1); [|done..]. by apply (ensure_node_call_schema G c).
Qed.

Lemma row_nodes_schema (b : brew F) : Forall call_schema_ok (row_nodes b).
Proof.
  unfold row_nodes. apply Forall_app. split.
  - repeat (apply Forall_cons; split;
            [split_and!; [reflexivity..| |reflexivity];
             cbn [fmap list_fmap fst snd];
             apply (bool_decide_unpack _); vm_compute; reflexivity|]).
    apply Forall_nil_2.
  - apply Forall_fmap, Forall_forall. intros ni _.
    split_and!; [reflexivity..|apply NoDup_nil_2|reflexivity].
Qed.

(** The two phases of a row: the calls of [ensure_node], after which the
    calls of [add_edge] leave the nodes as they are. *)
Lemma process_row_phases cols (G : MultiDiGraph F) r G' :
  well_formed G → process_row cols G r = Ok G' →
  ∃ Gn, for_each ensure_node_call (row_nodes (cleaned r)) G = Ok Gn ∧
        for_each add_edge_call (row_edges cols r (cleaned r)) Gn = Ok G' ∧
        well_formed Gn ∧ nodes G' = nodes Gn ∧ edges Gn = edges G.
Proof.
  intros Hwf Hrow.
  assert (Hb : read_row r = Ok (cleaned r)).
  { apply ok_cleaned. unfold process_row in Hrow. by destruct (read_row r). }
  rewrite process_row_calls, Hb in Hrow. cbn [mbind result_bind] in Hrow.
  apply bind_Ok_inv in Hrow as (Gn & Hnodes & Hedges).
  destruct (ensure_node_calls_wf _ _ _ Hwf (row_nodes_types _) Hnodes)
    as (Hwfn & Hdn & Hen).
  destruct (add_edge_calls_wf (row_edges cols r (cleaned r)) Gn G' Hwfn)
    as (_ & Hn' & _); [|done|].
  { eapply Forall_impl; [apply row_edges_ends|].
    intros c (Hs & Hd & Hrel). split_and!; [apply Hdn; by right..|done]. }
  by exists Gn.
Qed.

Lemma rows_schema cols rws (G : MultiDiGraph F) G' :
  well_formed G → nodes_schema_ok G →
  for_each (process_row cols) rws G = Ok G' → nodes_schema_ok G'.
Proof.
  revert G. induction rws as [|r rws IH]; intros G Hwf HG; cbn [for_each].
  - by intros [= <-].
  - intros (G1 & H1 & H2)%bind_Ok_inv.
    destruct (process_row_phases _ _ _ _ Hwf H1)
      as (Gn & Hnodes & _ & _ & Hn1 & _).
    assert (Hb : read_row r = Ok (cleaned r)).
    { apply ok_cleaned. unfold process_row in H1. by destruct (read_row r). }
    apply (IH G1); [|..|done].
    + by destruct (process_row_wf _ _ _ _ _ Hwf H1 Hb).
    + intros n a. rewrite Hn1.
      by apply (ensure_node_calls_schema (row_nodes (cleaned r)) G Gn HG
                  (row_nodes_schema (cleaned r)) Hnodes).
Qed.

Lemma build_schema (df : DataFrame F) G :
  build_graph_from_brews df = Ok G → nodes_schema_ok G.
Proof.
  unfold build_graph_from_brews.
  destruct (missing_columns (columns df)); [|discriminate].
  apply rows_schema; [apply well_formed_empty|].
  intros n a. cbn. by rewrite lookup_empty.
Qed.

End NodeSchema.

(** X18. The nodes of a built graph follow a schema.  The type of a node is
    the one that goes with the prefix of its identifier (a node [roaster:...]
    is a Roaster, a node [brew:...] a BrewSession, and so on), and its
    attributes, label and type apart, are exactly the properties of that
    type, each with its kind of value: the dose, the brew time and the five
    scores are floats, whatever the cells held, and the others are strings. *)
Theorem built_nodes_follow_schema {F : Type} `{PyFloat F}
    (df : DataFrame F) (G : MultiDiGraph F) (n : string) :
  build_graph_from_brews df = Ok G → is_Some (nodes G !! n) →
  ∃ t ks, id_type n = Some t ∧ dict_get t node_schema = Some ks ∧
          node_attr G n "type" = Some (VStr t) ∧
          ∀ k, k ≠ "label" → k ≠ "type" →
               kind_of <$> node_attr G n k = dict_get k ks.
Proof.
  intros Hb [a Ha].
  destruct (build_schema df G Hb n a Ha) as (t & ks & Hid & Hks & Hty & Hk).
  exists t, ks. unfold node_attr. rewrite Ha. by split_and!.
Qed.

Lemma built_nodes_follow_schema_witness :
  ∃ t ks, id_type "brew:b001" = Some t ∧ dict_get t node_schema = Some ks ∧
          node_attr Example.G12 "brew:b001" "type" = Some (VStr t) ∧
          ∀ k, k ≠ "label" → k ≠ "type" →
               kind_of <$> node_attr Example.G12 "brew:b001" k = dict_get k ks.
Proof.
  apply (built_nodes_follow_schema
           {| columns := Example.cols;
              rows := [Example.row1] ++ [Example.row2] |}).
  - apply (ok_graph_of (build_graph_from_brews _)). vm_compute. reflexivity.
  - apply (node_attr_is_Some Example.G12 "brew:b001" "label" (VStr "B001")).
    vm_compute. reflexivity.
Defined.

(** * The shape of the edges of a built graph *)

Section EdgeSchema.

Context {F : Type} `{PyFloat F}.

Lemma row_edges_ontology cols r (b : brew F) :
  Forall (λ c : emission F,
            ∃ ts td, dict_get c.1.1.2 edge_ends = Some (ts, td) ∧
                     id_type c.1.1.1 = Some ts ∧ id_type c.1.2 = Some td)
    (row_edges cols r b).
Proof.
  unfold row_edges. apply Forall_app. split.
  - repeat (apply Forall_cons; split;
            [eexists _, _; split_and!; reflexivity|]).
    apply Forall_nil_2.
  - apply Forall_fmap, Forall_forall. intros ni _.
    eexists _, _. split_and!; reflexivity.
Qed.

Lemma dict_get_Some_elem {V : Type} (d : dict V) k v :
  dict_get k d = Some v → (k, v) ∈ d.
Proof.
  induction d as [|[k' v'] d IH]; [done|]. cbn [dict_get].
  destruct (String.eqb_spec k' k) as [->|_].
  - intros [= ->]. apply elem_of_cons. by left.
  - intros Hd. apply elem_of_cons. right. by apply IH.
Qed.

Lemma coerce_kind (v : value F) :
  kind_of (coerce v) = KFloat ∨ kind_of (coerce v) = KStr.
Proof. unfold coerce. destruct (py_float v); [by left|by right]. Qed.

Lemma method_params_elem cols (r : gmap string (value F)) m k x :
  (k, x) ∈ method_params cols r m →
  (k = "brew_method" ∧ x = VStr m) ∨
  (k ∈ cols ∧ str_in k core_columns = false ∧ x = coerce (get r k VNone)).
Proof.
  intros Hin. apply dict_get_elem in Hin; [|apply method_params_NoDup].
  unfold method_params in Hin. rewrite method_params_fold_get in Hin.
  destruct (str_in k cols) eqn:Hk; cbn [andb] in Hin.
  - destruct (str_in k core_columns) eqn:Hcore; cbn [negb andb] in Hin.
    + left. cbn [dict_get] in Hin.
      destruct (String.eqb_spec "brew_method" k) as [<-|_]; [|done].
      by injection Hin as <-.
    + destruct (present (get r k VNone)).
      * right. injection Hin as <-. by rewrite <- str_in_elem_of.
      * left. cbn [dict_get] in Hin.
        destruct (String.eqb_spec "brew_method" k) as [<-|_]; [|done].
        by injection Hin as <-.
  - left. cbn [dict_get] in Hin.
    destruct (String.eqb_spec "brew_method" k) as [<-|_]; [|done].
    by injection Hin as <-.
Qed.

Lemma method_params_brew_method cols (r : gmap string (value F)) m :
  dict_get "brew_method" (method_params cols r m) = Some (VStr m).
Proof.
  unfold method_params. rewrite method_params_fold_get.
  replace (str_in "brew_method" core_columns) with true by reflexivity.
  cbn [negb andb]. by rewrite andb_false_r.
Qed.

Lemma row_edges_schema cols r (b : brew F) :
  Forall (edge_call_ok cols) (row_edges cols r b).
Proof.
  unfold row_edges. apply Forall_app. split.
  - repeat apply Forall_cons_2; [..|apply Forall_nil_2].
    4: { split_and!; cbn [fst snd].
         - apply method_params_NoDup.
         - intros ks Hks. vm_compute in Hks. discriminate.
         - intros _. split.
           + eexists. apply method_params_brew_method.
           + intros k x [[-> ->]|(Hk & Hcore & ->)]%method_params_elem.
             * by left.
             * right. split_and!; [done..|apply coerce_kind]. }
    all: split_and!; cbn [fst snd];
      [apply (bool_decide_unpack _); vm_compute; reflexivity
      |intros ks Hks; vm_compute in Hks; by injection Hks as <-
      |intros [=]].
  - apply Forall_fmap, Forall_forall. intros ni _.
    split_and!; cbn [fst snd].
    + apply NoDup_singleton.
    + intros ks Hks. vm_compute in Hks. by injection Hks as <-.
    + intros [=].
Qed.

Lemma add_edge_call_schema cols (G : MultiDiGraph F) c G' :
  edges_schema_ok cols G → edge_call_ok cols c →
  add_edge_call G c = Ok G' → edges_schema_ok cols G'.
Proof.
  destruct c as [[[src rel] dst] props].
  unfold add_edge_call, add_edge, edge_call_ok. cbn [fst snd].
  intros HG (Hnd & Hks & Hbw) Hcall.
  destruct (clashes ["G"; "src"; "rel"; "dst"] props); [discriminate|].
  destruct (clashes ["u_for_edge"; "v_for_edge"; "key"; "type"] props) eqn:Hc;
    [discriminate|].
  injection Hcall as <-. intros u v rel' a. rewrite nx_add_edge_edges.
  destruct (decide ((src, dst, rel) = (u, v, rel'))) as [[= <- <- <-]|Hne];
    [|rewrite lookup_insert_ne by done; apply HG].
  rewrite lookup_insert_eq. intros [= <-].
  set (a0 := default ∅ (edges G !! (src, dst, rel))).
  assert (Ha0 : edge_schema_ok cols rel a0 ∨ a0 = ∅).
  { unfold a0. destruct (edges G !! (src, dst, rel)) as [a|] eqn:Ha;
      [left; by apply (HG src dst rel)|by right]. }
  assert (Hk : ∀ k, k ≠ "type" →
            update (<["type" := VStr rel]> a0) props !! k =
            from_option Some (a0 !! k) (dict_get k props)).
  { intros k Hty. rewrite update_lookup, lookup_insert_ne by done.
    by apply last_value_dict. }
  split.
  - intros ks Hrel k Hty. rewrite (Hk k Hty).
    rewrite <- (Hks ks Hrel), dict_get_kinds.
    destruct (dict_get k props) as [x|] eqn:Hx; [done|]. cbn.
    destruct Ha0 as [[Ha0 _]| ->]; [|by rewrite lookup_empty].
    rewrite (Ha0 ks Hrel k Hty), <- (Hks ks Hrel), dict_get_kinds.
    by rewrite Hx.
  - intros Hrel. destruct (Hbw Hrel) as ((m & Hm) & Hprops). split.
    + exists m. rewrite Hk by done. by rewrite Hm.
    + intros k x Hx. destruct (decide (k = "type")) as [->|Hty]; [by left|].
      right. rewrite (Hk k Hty) in Hx.
      destruct (dict_get k props) as [y|] eqn:Hy.
      * cbn in Hx. injection Hx as <-.
        by apply Hprops, dict_get_Some_elem.
      * cbn in Hx. destruct Ha0 as [[_ Ha0]|Ha0].
        -- destruct (Ha0 Hrel) as (_ & Hkeys).
           by destruct (Hkeys k x Hx) as [?|?].
        -- by rewrite Ha0, lookup_empty in Hx.
Qed.

Lemma add_edge_calls_schema cols es (G : MultiDiGraph F) G' :
  edges_schema_ok cols G → Forall (edge_call_ok cols) es →
  for_each add_edge_call es G = Ok G' → edges_schema_ok cols G'.
Proof.
  revert G. induction es as [|c es IH]; intros G HG Hes; cbn [for_each].
  - by intros [= <-].
  - apply Forall_cons in Hes as [Hc Hes].
    intros (G1 & H1 & H2)%bind_Ok_inv.
    apply (IH G1); [|done..]. by apply (add_edge_call_schema cols G c).
Qed.

Lemma rows_edge_schema cols rws (G : MultiDiGraph F) G' :
  well_formed G → edges_schema_ok cols G →
  for_each (process_row cols) rws G = Ok G' → edges_schema_ok cols G'.
Proof.
  revert G. induction rws as [|r rws IH]; intros G Hwf HG; cbn [for_each].
  - by intros [= <-].
  - intros (G1 & H1 & H2)%bind_Ok_inv.
    destruct (process_row_phases _ _ _ _ Hwf H1)
      as (Gn & _ & Hedges & _ & _ & He).
    assert (Hb : read_row r = Ok (cleaned r)).
    { apply ok_cleaned. unfold process_row in H1. by destruct (read_row r). }
    apply (IH G1); [|..|done].
    + by destruct (process_row_wf _ _ _ _ _ Hwf H1 Hb).
    + apply (add_edge_calls_schema cols (row_edges cols r (cleaned r)) Gn);
        [|apply row_edges_schema|done].
      intros u v rel a. rewrite He. apply HG.
Qed.

Lemma build_edge_schema (df : DataFrame F) G :
  build_graph_from_brews df = Ok G → edges_schema_ok (columns df) G.
Proof.
  unfold build_graph_from_brews.
  destruct (missing_columns (columns df)); [|discriminate].
  apply rows_edge_schema; [apply well_formed_empty|].
  intros u v rel a. cbn. by rewrite lookup_empty.
Qed.

End EdgeSchema.

(** X19. The edges of a built graph respect the ontology: each relationship
    type joins nodes of two fixed types (PRODUCES goes from a Roaster to a
    BeanLot, HAS_NOTE from a SensoryEvaluation to a FlavorNote, and so on),
    as read from the [type] attributes of the two end points. *)
Theorem built_edges_respect_ontology {F : Type} `{PyFloat F}
    (df : DataFrame F) (G : MultiDiGraph F) (u v rel : string) :
  build_graph_from_brews df = Ok G → is_Some (edges G !! (u, v, rel)) →
  ∃ ts td, dict_get rel edge_ends = Some (ts, td) ∧
           node_attr G u "type" = Some (VStr ts) ∧
           node_attr G v "type" = Some (VStr td).
Proof.
  intros Hb [a Ha]. destruct (build_wf df G Hb) as ([_ Hwf] & _ & He).
  destruct (Hwf u v rel a Ha) as ([au Hu] & [av Hv] & _).
  destruct (proj1 (He (u, v, rel))) as (r & _ & Hin); [by exists a|].
  apply list_elem_of_fmap in Hin as (c & Hc & Hin).
  pose proof (row_edges_ontology (columns df) r (cleaned r)) as Hont.
  rewrite Forall_forall in Hont.
  destruct (Hont c Hin) as (ts & td & Hends & Hs & Hd).
  unfold triple in Hc. injection Hc as -> -> ->.
  destruct (build_schema df G Hb _ au Hu) as (t1 & _ & Hid1 & _ & Ht1 & _).
  destruct (build_schema df G Hb _ av Hv) as (t2 & _ & Hid2 & _ & Ht2 & _).
  exists ts, td. unfold node_attr. rewrite Hu, Hv. cbn.
  split_and!; [done|congruence..].
Qed.

Lemma built_edges_respect_ontology_witness :
  ∃ ts td, dict_get "BREWED_WITH" edge_ends = Some (ts, td) ∧
           node_attr Example.G12 "brew:b001" "type" = Some (VStr ts) ∧
           node_attr Example.G12 "brewer:la-marzocco-linea" "type"
           = Some (VStr td).
Proof.
  apply (built_edges_respect_ontology
           {| columns := Example.cols;
              rows := [Example.row1] ++ [Example.row2] |}).
  - apply (ok_graph_of (build_graph_from_brews _)). vm_compute. reflexivity.
  - apply (edge_attr_is_Some Example.G12 Example.brewed_with "brew_method"
             (VStr "ristretto")).
    vm_compute. reflexivity.
Defined.

(** X20. The edges of a built graph follow a schema.  Apart from [type], an
    edge of a relationship type other than BREWED_WITH has exactly the
    properties of that type: a string roast_date on ROASTED_AS, a string
    grind_setting on USES_GRINDER, an integer intensity on HAS_NOTE, nothing
    on the others.  A BREWED_WITH edge has a string brew_method, and every
    other attribute of it is a column of the table outside the core columns,
    holding a float or a string: no core column ever leaks onto it. *)
Theorem built_edges_follow_schema {F : Type} `{PyFloat F}
    (df : DataFrame F) (G : MultiDiGraph F) (u v rel : string) :
  build_graph_from_brews df = Ok G → is_Some (edges G !! (u, v, rel)) →
  (∀ ks, dict_get rel edge_schema = Some ks →
         ∀ k, k ≠ "type" →
              kind_of <$> edge_attr G (u, v, rel) k = dict_get k ks) ∧
  (rel = "BREWED_WITH" →
   (∃ m, edge_attr G (u, v, rel) "brew_method" = Some (VStr m)) ∧
   ∀ k x, edge_attr G (u, v, rel) k = Some x →
          k = "type" ∨ (k = "brew_method" ∧ kind_of x = KStr) ∨
          (k ∈ columns df ∧ str_in k core_columns = false ∧
           (kind_of x = KFloat ∨ kind_of x = KStr))).
Proof.
  intros Hb [a Ha]. unfold edge_attr. rewrite Ha. cbn.
  apply (build_edge_schema df G Hb u v rel a Ha).
Qed.

Lemma built_edges_follow_schema_witness :
  (∀ ks, dict_get "BREWED_WITH" edge_schema = Some ks →
         ∀ k, k ≠ "type" →
              kind_of <$> edge_attr Example.G12 Example.brewed_with k
              = dict_get k ks) ∧
  ("BREWED_WITH" = "BREWED_WITH" →
   (∃ m, edge_attr Example.G12 Example.brewed_with "brew_method"
         = Some (VStr m)) ∧
   ∀ k x, edge_attr Example.G12 Example.brewed_with k = Some x →
          k = "type" ∨ (k = "brew_method" ∧ kind_of x = KStr) ∨
          (k ∈ Example.cols ∧ str_in k core_columns = false ∧
           (kind_of x = KFloat ∨ kind_of x = KStr))).
Proof.
  apply (built_edges_follow_schema
           {| columns := Example.cols;
              rows := [Example.row1] ++ [Example.row2] |}).
  - apply (ok_graph_of (build_graph_from_brews _)). vm_compute. reflexivity.
  - apply (edge_attr_is_Some Example.G12 Example.brewed_with "brew_method"
             (VStr "ristretto")).
    vm_compute. reflexivity.
Defined.
